(** * Horse-racing simulation core: a shallow embedding and its properties

    The development follows the TypeScript sources:
    - [JsNum]: the part of JavaScript's Number arithmetic the race uses
      (binary64 products, [Math.floor]);
    - [JsString]: strings as sequences of UTF-16 code units;
    - [Res]: [shared/Result.ts] ([Ok], [Err], [combine]);
    - [Condition], [HorseName], [HorseColor], [Horse]: the value objects;
    - [RunningHorse], [Race]: the entities and the race aggregate;
    - [EventBus]: the in-memory publish/subscribe router;
    - [StartRaceCommand]: the race-loop driver. *)

From Stdlib Require Import ZArith QArith Qround Qabs Qpower Lia Lqa List Bool String Ascii Sorted.
From stdpp Require Import base option list gmap strings.

Local Open Scope Z_scope.

(** ** JavaScript numbers

    A finite Number is a binary64 value, hence a rational; it is modelled by
    the rational it denotes.  [b64_round] is IEEE-754 round-to-nearest,
    ties-to-even, onto binary64 (53-bit significands, least exponent
    [-1074]); results of magnitude [2^1024] and above (JavaScript's
    [Infinity]) lie outside the model.  Every product the race takes is below
    [128]. *)
Module JsNum.

(** [2^e] as a rational, for any integer exponent. *)
Definition pow2 (e : Z) : Q := Qpower 2 e.

(** [floor (log2 q)] of a positive rational. *)
Definition log2_floor (q : Q) : Z :=
  let e := Z.log2 (Qnum q) - Z.log2 (Zpos (Qden q)) in
  if Qle_bool (pow2 e) q then e else e - 1.

(** Round to the nearest integer, ties to the even one. *)
Definition round_half_even (q : Q) : Z :=
  let f := Qfloor q in
  match Qcompare (q - inject_Z f) (1 # 2) with
  | Lt => f
  | Gt => f + 1
  | Eq => if Z.even f then f else f + 1
  end.

(** Exponent of the unit in the last place of the binade of [q > 0]. *)
Definition ulp_exp (q : Q) : Z := Z.max (log2_floor q) (-1022) - 52.

Definition b64_round (q : Q) : Q :=
  match Qcompare q 0 with
  | Eq => 0
  | Gt => let e := ulp_exp q in
          inject_Z (round_half_even (q * pow2 (- e))) * pow2 e
  | Lt => let e := ulp_exp (- q) in
          - (inject_Z (round_half_even ((- q) * pow2 (- e))) * pow2 e)
  end%Q.

(** A rational is a Number when rounding leaves it in place. *)
Definition is_b64 (q : Q) : bool := Qeq_bool (b64_round q) q.

(** A decimal literal of the source text denotes the nearest Number. *)
Definition literal (q : Q) : Q := Qred (b64_round q).

(** [a * b] on Numbers. *)
Definition mul (a b : Q) : Q := Qred (b64_round (a * b)).

(** [Math.floor], on a Number whose floor is a safe integer. *)
Definition floor (q : Q) : Z := Qfloor q.

(** A Number as a caller can pass it: finite, or one of the three
    non-finite values. *)
Inductive number := Num (q : Q) | NaN | PosInfinity | NegInfinity.

Definition isInteger (v : number) : bool :=
  match v with
  | Num q => Qeq_bool (inject_Z (Qfloor q)) q
  | _ => false
  end.

(** [v < n] and [v > n] against an integer literal [n]; any comparison
    with [NaN] is false. *)
Definition ltZ (v : number) (n : Z) : bool :=
  match v with
  | Num q => negb (Qle_bool (inject_Z n) q)
  | NegInfinity => true
  | _ => false
  end.

Definition gtZ (v : number) (n : Z) : bool :=
  match v with
  | Num q => negb (Qle_bool q (inject_Z n))
  | PosInfinity => true
  | _ => false
  end.

(** The integer a Number is, once [isInteger] has accepted it. *)
Definition toZ (v : number) : Z :=
  match v with Num q => Qfloor q | _ => 0 end.

(** [a / b] on Numbers, for [b] other than zero. *)
Definition div (a b : Q) : Q := Qred (b64_round (Qred (a / b))).

(** [Math.min(a, b)] on finite Numbers. *)
Definition min (a b : Q) : Q := if Qle_bool a b then a else b.

End JsNum.

(** ** JavaScript strings

    A string is its sequence of UTF-16 code units; [length] is the source's
    [.length]. *)
Module JsString.

Definition t := list N.

(** The code units of an ASCII literal of the source text. *)
Definition units (s : string) : t :=
  map (fun a => N_of_ascii a) (list_ascii_of_string s).

(** ECMAScript WhiteSpace and LineTerminator: what [trim] strips and what
    the regular-expression class [\s] matches. *)
Definition isSpace (c : N) : bool :=
  ((9 <=? c) && (c <=? 13) || (c =? 32) || (c =? 160) || (c =? 5760)
   || (8192 <=? c) && (c <=? 8202) || (c =? 8232) || (c =? 8233)
   || (c =? 8239) || (c =? 8287) || (c =? 12288) || (c =? 65279))%N.

Fixpoint trimStart (s : t) : t :=
  match s with
  | c :: s' => if isSpace c then trimStart s' else s
  | [] => []
  end.

Definition trimEnd (s : t) : t := rev (trimStart (rev s)).

Definition trim (s : t) : t := trimEnd (trimStart s).

(** [\d], [[a-z]], [[A-Z]], [[0-9a-f]] under the [i] flag. *)
Definition isDigit (c : N) : bool := ((48 <=? c) && (c <=? 57))%N.
Definition isLower (c : N) : bool := ((97 <=? c) && (c <=? 122))%N.
Definition isUpper (c : N) : bool := ((65 <=? c) && (c <=? 90))%N.
Definition isHexDigit (c : N) : bool :=
  (isDigit c || (97 <=? c) && (c <=? 102) || (65 <=? c) && (c <=? 70))%N.

(** [toLowerCase] on the characters the colour patterns let through. *)
Definition toLowerUnit (c : N) : N := if isUpper c then (c + 32)%N else c.
Definition toLowerCase (s : t) : t := map toLowerUnit s.

(** [parseInt(s, 10)] on a run of decimal digits. *)
Definition parseInt (s : t) : Z :=
  fold_left (fun acc c => 10 * acc + (Z.of_N c - 48)) s 0.

(** [n.toString(16).padStart(2, '0')] for [0 <= n <= 255]. *)
Definition hexDigit (d : Z) : N :=
  if d <? 10 then Z.to_N (48 + d) else Z.to_N (97 + (d - 10)).
Definition hex2 (n : Z) : t := [hexDigit (n / 16); hexDigit (n mod 16)].

End JsString.

(** ** shared/Result.ts *)
Module Res.

Inductive Result (T E : Type) : Type :=
| Ok (value : T)
| Err (error : E).
Arguments Ok {T E} value.
Arguments Err {T E} error.

Definition isOk {T E} (r : Result T E) : bool :=
  match r with Ok _ => true | Err _ => false end.

Definition isErr {T E} (r : Result T E) : bool :=
  match r with Ok _ => false | Err _ => true end.

(** The loop of [combine]: [values] is the array filled so far. *)
Fixpoint combine_from {T E} (values : list T) (results : list (Result T E))
  : Result (list T) E :=
  match results with
  | [] => Ok values
  | Err e :: _ => Err e
  | Ok v :: rest => combine_from (values ++ [v]) rest
  end.

Definition combine {T E} (results : list (Result T E)) : Result (list T) E :=
  combine_from [] results.

End Res.
Export Res(Result, Ok, Err).

(** ** domain/errors *)
Record ValidationError := mkValidationError { field : string; reason : string }.

Inductive RaceError :=
| RaceAlreadyFinishedError (raceId : JsString.t)
| RaceNotStartedError (raceId : JsString.t)
| HorseAlreadyFinishedError (horseId : JsString.t)
| RaceNotFoundError (index : Z)
| NoHorsesError.

(** ** domain/value-objects *)
Module Condition.

(** [_value]; the class keeps it an integer. *)
Record t := mk { value : Z }.

Definition create (v : JsNum.number) : Result t ValidationError :=
  if negb (JsNum.isInteger v) then
    Err (mkValidationError "condition" "must be an integer")
  else if JsNum.ltZ v 1 then
    Err (mkValidationError "condition" "must be at least 1")
  else if JsNum.gtZ v 100 then
    Err (mkValidationError "condition" "must be at most 100")
  else Ok (mk (JsNum.toZ v)).

End Condition.

Module HorseName.

Record t := mk { value : JsString.t }.

Definition MIN_LENGTH : nat := 2.
Definition MAX_LENGTH : nat := 30.

(** [NAME_PATTERN = /^[a-zA-Z0-9\s\-']+$/] *)
Definition nameUnit (c : N) : bool :=
  JsString.isLower c || JsString.isUpper c || JsString.isDigit c
  || JsString.isSpace c || (c =? 45)%N || (c =? 39)%N.

Definition NAME_PATTERN_test (s : JsString.t) : bool :=
  negb (Nat.eqb (length s) 0) && forallb nameUnit s.

Definition create (v : JsString.t) : Result t ValidationError :=
  let trimmed := JsString.trim v in
  if (length trimmed <? MIN_LENGTH)%nat then
    Err (mkValidationError "name" "must be at least 2 characters")
  else if (MAX_LENGTH <? length trimmed)%nat then
    Err (mkValidationError "name" "must be at most 30 characters")
  else if negb (NAME_PATTERN_test trimmed) then
    Err (mkValidationError "name"
           "can only contain letters, numbers, spaces, hyphens, and apostrophes")
  else Ok (mk trimmed).

End HorseName.

Module HorseColor.

Record t := mk { value : JsString.t }.

(** One literal character of a pattern; under the [i] flag a letter
    matches in either case. *)
Definition expect (c : N) (s : JsString.t) : option JsString.t :=
  match s with
  | d :: s' => if (d =? c)%N then Some s' else None
  | [] => None
  end.

Definition expectCI (c : N) (s : JsString.t) : option JsString.t :=
  match s with
  | d :: s' => if (JsString.toLowerUnit d =? c)%N then Some s' else None
  | [] => None
  end.

(** [(\d{1,3})]: the longest run of at most [n] digits, and the rest. *)
Fixpoint digits (n : nat) (s : JsString.t) : JsString.t * JsString.t :=
  match n, s with
  | S n', c :: s' =>
      if JsString.isDigit c
      then let '(ds, rest) := digits n' s' in (c :: ds, rest)
      else ([], s)
  | _, _ => ([], s)
  end.

(** [\s*(\d{1,3})\s*] *)
Definition number_group (s : JsString.t) : option (JsString.t * JsString.t) :=
  let '(ds, rest) := digits 3 (JsString.trimStart s) in
  match ds with
  | [] => None
  | _ => Some (ds, JsString.trimStart rest)
  end.

(** [RGB_REGEX = /^rgb\(\s*(\d{1,3})\s*,\s*(\d{1,3})\s*,\s*(\d{1,3})\s*\)$/i];
    the three captures of a match. *)
Definition RGB_REGEX_match (s : JsString.t)
  : option (JsString.t * JsString.t * JsString.t) :=
  s ← expectCI 114 s;
  s ← expectCI 103 s;
  s ← expectCI 98 s;
  s ← expect 40 s;
  '(r, s) ← number_group s;
  s ← expect 44 s;
  '(g, s) ← number_group s;
  s ← expect 44 s;
  '(b, s) ← number_group s;
  s ← expect 41 s;
  match s with
  | [] => Some (r, g, b)
  | _ => None
  end.

(** [HEX_REGEX = /^#([0-9a-f]{3}|[0-9a-f]{6})$/i]; the capture of a match. *)
Definition HEX_REGEX_match (s : JsString.t) : option JsString.t :=
  h ← expect 35 s;
  if (Nat.eqb (length h) 3 || Nat.eqb (length h) 6)
     && forallb JsString.isHexDigit h
  then Some h else None.

(** [#rgb] to [#rrggbb]. *)
Definition expand (hex : JsString.t) : JsString.t :=
  match hex with
  | [a; b; c] => [a; a; b; b; c; c]
  | _ => hex
  end.

Definition create (v : JsString.t) : Result t ValidationError :=
  let trimmed := JsString.trim v in
  match RGB_REGEX_match trimmed with
  | Some (r, g, b) =>
      let rNum := JsString.parseInt r in
      let gNum := JsString.parseInt g in
      let bNum := JsString.parseInt b in
      if (255 <? rNum) || (255 <? gNum) || (255 <? bNum) then
        Err (mkValidationError "color" "RGB values must be between 0 and 255")
      else
        let hex := 35%N :: JsString.hex2 rNum ++ JsString.hex2 gNum
                     ++ JsString.hex2 bNum in
        Ok (mk (JsString.toLowerCase hex))
  | None =>
      match HEX_REGEX_match trimmed with
      | Some hex => Ok (mk (35%N :: JsString.toLowerCase (expand hex)))
      | None =>
          Err (mkValidationError "color"
                 "must be in rgb(r,g,b) or #rrggbb/#rgb format")
      end
  end.

End HorseColor.

Module Horse.

Record HorseProps := mkProps {
  props_id : JsString.t;
  props_name : JsString.t;
  props_color : JsString.t;
  props_condition : JsNum.number
}.

Record t := mk {
  id : JsString.t;
  name : HorseName.t;
  color : HorseColor.t;
  condition : Condition.t
}.

(** The element type of the array handed to [combine]: the union
    [HorseName | HorseColor | Condition]. *)
Inductive component :=
| IsName (n : HorseName.t)
| IsColor (c : HorseColor.t)
| IsCondition (c : Condition.t).

Definition widen {A} (inj : A -> component) (r : Result A ValidationError)
  : Result component ValidationError :=
  match r with
  | Ok v => Ok (inj v)
  | Err e => Err e
  end.

Section WithIdFactory.

(** [createHorseId = createIdFactory('HorseId', isValidUUIDAny)] comes
    from [shared/types/branded], which is not among the sources; it is
    a parameter.  [None] stands for the exception it throws. *)
Variable createHorseId : JsString.t -> option JsString.t.

Definition create (props : HorseProps) : Result t ValidationError :=
  match createHorseId (props_id props) with
  | None => Err (mkValidationError "id" "must be a valid UUID")
  | Some id =>
      let nameResult := HorseName.create (props_name props) in
      let colorResult := HorseColor.create (props_color props) in
      let conditionResult := Condition.create (props_condition props) in
      let combined :=
        Res.combine [widen IsName nameResult; widen IsColor colorResult;
                     widen IsCondition conditionResult] in
      match combined with
      | Err e => Err e
      | Ok [IsName name; IsColor color; IsCondition condition] =>
          Ok (mk id name color condition)
      | Ok _ =>
          (* not reached: [combine] keeps the three values in place *)
          Err (mkValidationError "" "")
      end
  end.

End WithIdFactory.

End Horse.

Module Distance.

Definition VALID_DISTANCES : list Z := [1200; 1400; 1600; 1800; 2000; 2200].

Record t := mk { value : Z }.

(** [VALID_DISTANCES.includes(value)] *)
Definition includes (v : JsNum.number) : bool :=
  match v with
  | JsNum.Num q => existsb (fun d => Qeq_bool q (inject_Z d)) VALID_DISTANCES
  | _ => false
  end.

Definition create (v : JsNum.number) : Result t ValidationError :=
  if negb (includes v) then
    Err (mkValidationError "distance"
           "must be one of: 1200, 1400, 1600, 1800, 2000, 2200 meters")
  else Ok (mk (JsNum.toZ v)).

Definition meters (d : t) : Z := value d.

End Distance.

(** ** domain/events/RaceEvents.ts

    [eventId] and [occurredAt], which [BaseDomainEvent] fills from
    [crypto.randomUUID()] and the clock, are left out: nothing below reads
    them.  [aggregateId] is the [raceId] argument. *)
Module HorsePosition.
Record t := mk {
  horseId : JsString.t;
  horseName : JsString.t;
  position : Z;
  isFinished : bool
}.
End HorsePosition.

Module RaceResult.
Record t := mk {
  place : Z;
  horseId : JsString.t;
  horseName : JsString.t;
  finishPosition : Z
}.
End RaceResult.

Inductive DomainEvent :=
| RaceStarted (raceId : JsString.t) (horseCount : Z) (distance : Z)
| TurnCompleted (raceId : JsString.t) (turnNumber : Z)
    (positions : list HorsePosition.t)
| HorseFinished (raceId : JsString.t) (horseId : JsString.t)
    (horseName : JsString.t) (finishPosition : Z) (place : Z)
| RaceFinished (raceId : JsString.t) (results : list RaceResult.t).

Definition eventType (e : DomainEvent) : string :=
  match e with
  | RaceStarted _ _ _ => "RaceStarted"
  | TurnCompleted _ _ _ => "TurnCompleted"
  | HorseFinished _ _ _ _ _ => "HorseFinished"
  | RaceFinished _ _ => "RaceFinished"
  end.

Definition isTurnCompleted (e : DomainEvent) : bool :=
  match e with TurnCompleted _ _ _ => true | _ => false end.
Definition isHorseFinished (e : DomainEvent) : bool :=
  match e with HorseFinished _ _ _ _ _ => true | _ => false end.
Definition isRaceFinished (e : DomainEvent) : bool :=
  match e with RaceFinished _ _ => true | _ => false end.

(** ** domain/entities/RunningHorse.ts *)
Module RunningHorse.

Record t := mk {
  id : JsString.t;
  horse : Horse.t;
  position : Z;
  isFinished : bool
}.

Definition name (h : t) : JsString.t := HorseName.value (Horse.name (horse h)).
Definition condition (h : t) : Z := Condition.value (Horse.condition (horse h)).

(** [create(horse, id?)]; [uuid] is what [crypto.randomUUID()] returns if
    it is called, [createRunningHorseId] the factory of
    [shared/types/branded] ([None]: it throws). *)
Definition create (createRunningHorseId : JsString.t -> option JsString.t)
    (uuid : JsString.t) (horse : Horse.t) (id : option JsString.t) : option t :=
  runningHorseId ← match id with
                   | Some i => Some i
                   | None => createRunningHorseId uuid
                   end;
  Some (mk runningHorseId horse 0 false).

(** [movement = Math.floor(Math.random() * this.condition) + 1], where
    [random] is the value [Math.random()] returns. *)
Definition movement (random : Q) (h : t) : Z :=
  JsNum.floor (JsNum.mul random (inject_Z (condition h))) + 1.

(** [run(raceLength)]: the result and the horse after the call.
    [Math.random()] is called exactly when the horse is not finished. *)
Definition run (random : Q) (raceLength : Z) (h : t)
  : Result Z RaceError * t :=
  if isFinished h then (Err (HorseAlreadyFinishedError (id h)), h)
  else
    let movement := movement random h in
    let newPosition := position h + movement in
    if raceLength <=? newPosition
    then (Ok movement, mk (id h) (horse h) raceLength true)
    else (Ok movement, mk (id h) (horse h) newPosition (isFinished h)).

(** [getProgress(raceLength)].  A division by zero gives [NaN] or an
    infinity, which the product with 100 keeps and [Math.min] treats as
    JavaScript does. *)
Definition getProgress (raceLength : Z) (h : t) : JsNum.number :=
  if raceLength =? 0 then
    if position h =? 0 then JsNum.NaN
    else if 0 <? position h then JsNum.Num 100
    else JsNum.NegInfinity
  else
    JsNum.Num
      (JsNum.min
         (JsNum.mul (JsNum.div (inject_Z (position h)) (inject_Z raceLength)) 100)
         100).

End RunningHorse.

(** ** domain/entities/Race.ts (with AggregateRoot.ts)

    [Race.create] builds one fresh [RunningHorse] object per entry, so the
    lineup array [_horses] is the arena of the race's horse objects and a
    reference to one of them is its lineup index.  [_results] holds such
    references: it aliases the lineup, as in the source. *)
Module Race.

Record t := mk {
  id : JsString.t;
  horses : list RunningHorse.t;
  distance : Distance.t;
  results : list nat;
  isStarted : bool;
  turnCount : Z;
  domainEvents : list DomainEvent
}.

(** The array [_horses] as references. *)
Definition lineup (r : t) : list nat := seq 0 (length (horses r)).

(** The getter [results]: the referenced horses. *)
Definition resultHorses (r : t) : list RunningHorse.t :=
  omap (fun ref => horses r !! ref) (results r).

Definition isFinished (r : t) : bool :=
  Nat.eqb (length (results r)) (length (horses r)).

Definition raceLength (r : t) : Z := Distance.meters (distance r).

Definition addDomainEvent (e : DomainEvent) (r : t) : t :=
  mk (id r) (horses r) (distance r) (results r) (isStarted r) (turnCount r)
     (domainEvents r ++ [e]).

Definition clearDomainEvents (r : t) : list DomainEvent * t :=
  (domainEvents r,
   mk (id r) (horses r) (distance r) (results r) (isStarted r) (turnCount r) []).

Section WithIdFactories.

Variable createRaceId : JsString.t -> option JsString.t.
Variable createRunningHorseId : JsString.t -> option JsString.t.

(** [horses.map((horse) => RunningHorse.create(horse))]; [k] counts the
    calls of [crypto.randomUUID()] made so far. *)
Fixpoint createAll (randomUUID : nat -> JsString.t) (k : nat)
    (hs : list Horse.t) : option (list RunningHorse.t) :=
  match hs with
  | [] => Some []
  | horse :: rest =>
      h ← RunningHorse.create createRunningHorseId (randomUUID k) horse None;
      hs' ← createAll randomUUID (S k) rest;
      Some (h :: hs')
  end.

(** [Race.create(horses, distance, id?)]; [randomUUID k] is the value of
    the [k]-th call of [crypto.randomUUID()]; [None] is an exception
    thrown by an id factory. *)
Definition create (randomUUID : nat -> JsString.t) (hs : list Horse.t)
    (distance : Distance.t) (id : option JsString.t)
  : option (Result t RaceError) :=
  if Nat.eqb (length hs) 0 then Some (Err NoHorsesError)
  else
    '(raceId, k) ← match id with
                   | Some i => Some (i, 0%nat)
                   | None => i ← createRaceId (randomUUID 0%nat); Some (i, 1%nat)
                   end;
    runningHorses ← createAll randomUUID k hs;
    Some (Ok (mk raceId runningHorses distance [] false 0 [])).

End WithIdFactories.

Definition start (r : t) : Result unit RaceError * t :=
  if isFinished r then (Err (RaceAlreadyFinishedError (id r)), r)
  else
    let r' :=
      if negb (isStarted r) then
        addDomainEvent
          (RaceStarted (id r) (Z.of_nat (length (horses r)))
             (Distance.value (distance r)))
          (mk (id r) (horses r) (distance r) (results r) true (turnCount r)
              (domainEvents r))
      else r in
    (Ok tt, r').

(** The loop [for (const horse of this._horses)] of [turn]: [hs] is the
    part of the lineup still to visit, [i] the index of its head, [k] the
    number of calls of [Math.random()] made so far in this turn.  Returns
    the horses after the moves and [newlyFinished]. *)
Fixpoint moveHorses (random : nat -> Q) (raceLength : Z) (k i : nat)
    (hs : list RunningHorse.t) (newlyFinished : list nat)
  : list RunningHorse.t * list nat :=
  match hs with
  | [] => ([], newlyFinished)
  | horse :: rest =>
      if negb (RunningHorse.isFinished horse) then
        let wasFinishedBefore := RunningHorse.isFinished horse in
        let '(_, horse') := RunningHorse.run (random k) raceLength horse in
        let newlyFinished' :=
          if RunningHorse.isFinished horse' && negb wasFinishedBefore
          then newlyFinished ++ [i] else newlyFinished in
        let '(rest', nf) :=
          moveHorses random raceLength (S k) (S i) rest newlyFinished' in
        (horse' :: rest', nf)
      else
        let '(rest', nf) :=
          moveHorses random raceLength k (S i) rest newlyFinished in
        (horse :: rest', nf)
  end.

(** [this._horses.indexOf(a)] *)
Fixpoint indexOf_from (i : Z) (l : list nat) (a : nat) : Z :=
  match l with
  | [] => -1
  | b :: l' => if Nat.eqb b a then i else indexOf_from (i + 1) l' a
  end.

Definition indexOf (l : list nat) (a : nat) : Z := indexOf_from 0 l a.

(** [Array.prototype.sort(compare)]: a stable sort, here by insertion. *)
Fixpoint insert (compare : nat -> nat -> Z) (a : nat) (l : list nat) : list nat :=
  match l with
  | [] => [a]
  | b :: l' => if compare a b <? 0 then a :: b :: l'
               else b :: insert compare a l'
  end.

Definition sort (compare : nat -> nat -> Z) (l : list nat) : list nat :=
  fold_right (insert compare) [] l.

(** The body of the loop [for (const horse of newlyFinished)]. *)
Definition recordFinisher (r : t) (ref : nat) : t :=
  let r1 := mk (id r) (horses r) (distance r) (results r ++ [ref])
              (isStarted r) (turnCount r) (domainEvents r) in
  let place := Z.of_nat (length (results r1)) in
  match horses r1 !! ref with
  | Some horse =>
      addDomainEvent
        (HorseFinished (id r1) (RunningHorse.id horse) (RunningHorse.name horse)
           (RunningHorse.position horse) place) r1
  | None => r1 (* a dangling reference: [newlyFinished] has none *)
  end.

Definition positions (r : t) : list HorsePosition.t :=
  map (fun h => HorsePosition.mk (RunningHorse.id h) (RunningHorse.name h)
                  (RunningHorse.position h) (RunningHorse.isFinished h))
      (horses r).

Definition raceResults (r : t) : list RaceResult.t :=
  imap (fun index h => RaceResult.mk (Z.of_nat index + 1) (RunningHorse.id h)
                         (RunningHorse.name h) (RunningHorse.position h))
       (resultHorses r).

(** [turn()]; [random k] is the value of the [k]-th call of
    [Math.random()] during this turn. *)
Definition turn (random : nat -> Q) (r : t) : Result unit RaceError * t :=
  if negb (isStarted r) then (Err (RaceNotStartedError (id r)), r)
  else if isFinished r then (Err (RaceAlreadyFinishedError (id r)), r)
  else
    let turnCount' := turnCount r + 1 in
    let '(horses', newlyFinished) :=
      moveHorses random (raceLength r) 0 0 (horses r) [] in
    let r1 := mk (id r) horses' (distance r) (results r) (isStarted r)
                turnCount' (domainEvents r) in
    let sorted :=
      sort (fun a b => indexOf (lineup r1) a - indexOf (lineup r1) b)
           newlyFinished in
    let r2 := fold_left recordFinisher sorted r1 in
    let r3 := addDomainEvent (TurnCompleted (id r2) (turnCount r2) (positions r2)) r2 in
    let r4 := if isFinished r3
              then addDomainEvent (RaceFinished (id r3) (raceResults r3)) r3
              else r3 in
    (Ok tt, r4).

Definition hasDomainEvents (r : t) : bool :=
  negb (Nat.eqb (length (domainEvents r)) 0).

(** [Array.prototype.sort(compare)] on any array: elements that compare
    equal keep the order they had. *)
Fixpoint insertStable {A} (compare : A -> A -> Z) (a : A) (l : list A) : list A :=
  match l with
  | [] => [a]
  | b :: l' => if 0 <? compare a b then b :: insertStable compare a l'
               else a :: b :: l'
  end.

Definition stableSort {A} (compare : A -> A -> Z) (l : list A) : list A :=
  fold_right (insertStable compare) [] l.

(** An entry of the leaderboard; [entry_horse] is the reference. *)
Record LeaderboardEntry := mkEntry {
  entry_horse : nat;
  rank : Z;
  progress : JsNum.number
}.

(** [getLeaderboard()]: the references of the lineup, each with the object
    it denotes, sorted by [b.position - a.position]. *)
Definition getLeaderboard (r : t) : list LeaderboardEntry :=
  let sorted :=
    stableSort (fun a b => RunningHorse.position (snd b) - RunningHorse.position (snd a))
      (zip (lineup r) (horses r)) in
  imap (fun index entry =>
          mkEntry (fst entry) (Z.of_nat index + 1)
            (RunningHorse.getProgress (raceLength r) (snd entry)))
       sorted.

End Race.

(** ** application/EventBus.ts

    A handler is a function object, known by its reference.  Calling it is
    recorded in a log of calls; a handler is taken to return normally and
    not to call back into the bus.  A JavaScript [Set] iterates in insertion
    order: it is a duplicate-free list.  The [Set] objects made by
    [subscribe] live in [sets] and are known by their index there, since the
    closure [subscribe] returns keeps hold of its [Set] even after the map
    has dropped it. *)
Module EventBus.

Definition EventHandler := nat.


Definition Set_delete (h : EventHandler) (s : list EventHandler) : list EventHandler :=
  filter (fun h' => h' ≠ h) s.

Record t := mk {
  sets : list (list EventHandler);
  handlers : gmap string nat;
  allHandlers : list EventHandler
}.

(** [new EventBus()] *)
Definition new : t := mk [] ∅ [].

(** The closure [subscribe] returns: its [handlerSet], [eventType] and
    [handler]. *)
Record Unsubscribe := mkUnsubscribe {
  handlerSet : nat;
  unsub_eventType : string;
  unsub_handler : EventHandler
}.


Definition unsubscribe (u : Unsubscribe) (b : t) : t :=
  let sets' := alter (Set_delete (unsub_handler u)) (handlerSet u) (sets b) in
  if Nat.eqb (length (default [] (sets' !! handlerSet u))) 0
  then mk sets' (delete (unsub_eventType u) (handlers b)) (allHandlers b)
  else mk sets' (handlers b) (allHandlers b).


Definition unsubscribeAll (handler : EventHandler) (b : t) : t :=
  mk (sets b) (handlers b) (Set_delete handler (allHandlers b)).

(** [this.handlers.get(eventType)], in iteration order; empty when absent. *)
Definition typeHandlers (b : t) (eventType : string) : list EventHandler :=
  match handlers b !! eventType with
  | Some ref => default [] (sets b !! ref)
  | None => []
  end.

Definition hasSubscribers (b : t) (eventType : string) : bool :=
  negb (Nat.eqb (length (typeHandlers b eventType)) 0)
  || negb (Nat.eqb (length (allHandlers b)) 0).

Definition clear (b : t) : t := mk (sets b) ∅ [].

Section Publishing.

Context {Event : Type}.
Variable eventType : Event -> string.

(** One entry per call [handler(event)], oldest first. *)
Definition Calls := list (EventHandler * Event).

(** [for (const handler of hs) { await handler(event); }] *)
Definition callEach (hs : list EventHandler) (event : Event) (log : Calls) : Calls :=
  fold_left (fun log handler => log ++ [(handler, event)]) hs log.

Definition publish (b : t) (event : Event) (log : Calls) : Calls :=
  let log1 := callEach (typeHandlers b (eventType event)) event log in
  callEach (allHandlers b) event log1.

Definition publishAll (b : t) (events : list Event) (log : Calls) : Calls :=
  fold_left (fun log event => publish b event log) events log.

End Publishing.

End EventBus.

(** ** application/commands/StartRaceCommand.ts and its ports *)

(** The [Timer] port, as [MockTimer] implements it.  Every callback the
    command schedules is its own [executeTurn]; an entry keeps the rest. *)
Module Timer.

Record TimerEntry := mkEntry { intervalMs : Z; isInterval : bool }.

Record t := mk { nextId : nat; timers : gmap nat TimerEntry }.

Definition new : t := mk 1 ∅.

Definition setInterval (intervalMs : Z) (tm : t) : nat * t :=
  (nextId tm, mk (S (nextId tm)) (<[nextId tm := mkEntry intervalMs true]> (timers tm))).

Definition clearInterval (id : nat) (tm : t) : t :=
  mk (nextId tm) (delete id (timers tm)).

Definition getActiveTimerCount (tm : t) : nat := size (timers tm).

End Timer.

(** The [GameStateStore] port, as the game store and [MockGameStateStore]
    implement it.  The store's race list is the arena of the [Race]
    objects: the command mutates the current race in place. *)
Module GameStateStore.

Record t := mk {
  races : list Race.t;
  currentRaceIndex : Z;
  isRunning : bool;
  tick : Z
}.

Definition getCurrentRaceIndex (s : t) : Z := currentRaceIndex s.

(** [races[currentRaceIndex]] *)
Definition getCurrentRace (s : t) : option Race.t :=
  if currentRaceIndex s <? 0 then None
  else races s !! Z.to_nat (currentRaceIndex s).

(** A method call on the current race object. *)
Definition updateCurrentRace (r : Race.t) (s : t) : t :=
  mk (<[Z.to_nat (currentRaceIndex s) := r]> (races s)) (currentRaceIndex s)
     (isRunning s) (tick s).

Definition setIsRunning (running : bool) (s : t) : t :=
  mk (races s) (currentRaceIndex s) running (tick s).

Definition incrementTick (s : t) : Z * t :=
  (tick s + 1, mk (races s) (currentRaceIndex s) (isRunning s) (tick s + 1)).

Definition resetTick (s : t) : t :=
  mk (races s) (currentRaceIndex s) (isRunning s) 0.

Definition advanceToNextRace (s : t) : bool * t :=
  let nextIndex := currentRaceIndex s + 1 in
  if nextIndex <? Z.of_nat (length (races s))
  then (true, mk (races s) nextIndex (isRunning s) (tick s))
  else (false, s).

End GameStateStore.

Module StartRaceCommand.

Definition DEFAULT_TICK_INTERVAL_MS : Z := 500.

(** The command object with the three collaborators it holds.
    [published] is what the [EventPublisher] port has received. *)
Record t := mk {
  intervalId : option nat;
  tickIntervalMs : Z;
  timer : Timer.t;
  stateStore : GameStateStore.t;
  published : list DomainEvent
}.

Definition withStore (s : GameStateStore.t) (c : t) : t :=
  mk (intervalId c) (tickIntervalMs c) (timer c) s (published c).

Definition publishAll (events : list DomainEvent) (c : t) : t :=
  mk (intervalId c) (tickIntervalMs c) (timer c) (stateStore c)
     (published c ++ events).

Definition clearInterval (c : t) : t :=
  match intervalId c with
  | Some id => mk None (tickIntervalMs c) (Timer.clearInterval id (timer c))
                 (stateStore c) (published c)
  | None => c
  end.

Definition stop (c : t) : t :=
  let c1 := clearInterval c in
  withStore (GameStateStore.setIsRunning false (stateStore c1)) c1.

Definition isRunning (c : t) : bool :=
  match intervalId c with Some _ => true | None => false end.

Definition Outcome := option (Result unit RaceError * t).

(** [handleRaceComplete()], given what its call of [this.execute()]
    does. *)
Definition handleRaceCompleteWith (execute : t -> Outcome) (c : t) : Outcome :=
  let c1 := clearInterval c in
  let c2 := withStore (GameStateStore.setIsRunning false (stateStore c1)) c1 in
  let '(hasNextRace, s3) := GameStateStore.advanceToNextRace (stateStore c2) in
  let c3 := withStore s3 c2 in
  if hasNextRace then
    execute (withStore (GameStateStore.resetTick (stateStore c3)) c3)
  else Some (Ok tt, c3).

(** [execute()] and [handleRaceComplete()] call each other: [fuel] bounds
    the depth of that recursion, and [None] means it was not enough. *)
Fixpoint execute_within (fuel : nat) (c : t) : Outcome :=
  match fuel with
  | O => None
  | S fuel' =>
      if GameStateStore.isRunning (stateStore c) then Some (Ok tt, c)
      else
        match GameStateStore.getCurrentRace (stateStore c) with
        | None =>
            Some (Err (RaceNotFoundError
                         (GameStateStore.getCurrentRaceIndex (stateStore c))), c)
        | Some race =>
            let '(startResult, race1) := Race.start race in
            let c1 := withStore (GameStateStore.updateCurrentRace race1 (stateStore c)) c in
            if Res.isErr startResult then
              handleRaceCompleteWith (execute_within fuel') c1
            else
              let '(startEvents, race2) := Race.clearDomainEvents race1 in
              let c2 := withStore (GameStateStore.updateCurrentRace race2 (stateStore c1)) c1 in
              let c3 := publishAll startEvents c2 in
              let c4 := withStore (GameStateStore.setIsRunning true (stateStore c3)) c3 in
              let '(id, timer') := Timer.setInterval (tickIntervalMs c4) (timer c4) in
              Some (Ok tt, mk (Some id) (tickIntervalMs c4) timer' (stateStore c4)
                              (published c4))
        end
  end.

(** Each nested call follows an advance of the race index, so one level
    per race of the program, and one more, is enough. *)
Definition execute (c : t) : Outcome :=
  execute_within (S (length (GameStateStore.races (stateStore c)))) c.

Definition handleRaceComplete (c : t) : Outcome :=
  handleRaceCompleteWith execute c.

(** [executeTurn()], the timer's callback; [random] feeds the turn. *)
Definition executeTurn (random : nat -> Q) (c : t) : option t :=
  match GameStateStore.getCurrentRace (stateStore c) with
  | None => Some (stop c)
  | Some race =>
      let '(turnResult, race1) := Race.turn random race in
      let c1 := withStore (GameStateStore.updateCurrentRace race1 (stateStore c)) c in
      if Res.isErr turnResult then snd <$> handleRaceComplete c1
      else
        let '(_, s2) := GameStateStore.incrementTick (stateStore c1) in
        let c2 := withStore s2 c1 in
        let '(events, race2) := Race.clearDomainEvents race1 in
        let c3 := withStore (GameStateStore.updateCurrentRace race2 (stateStore c2)) c2 in
        let c4 := publishAll events c3 in
        if Race.isFinished race2 then snd <$> handleRaceComplete c4
        else Some c4
  end.

End StartRaceCommand.

(** ** application/commands/PauseRaceCommand.ts

    The command holds the [StartRaceCommand] and the store that command
    holds. *)
Module PauseRaceCommand.

Definition execute (c : StartRaceCommand.t) : Result unit RaceError * StartRaceCommand.t :=
  let c1 := StartRaceCommand.stop c in
  (Ok tt,
   StartRaceCommand.withStore
     (GameStateStore.setIsRunning false (StartRaceCommand.stateStore c1)) c1).

End PauseRaceCommand.

(** ** application/commands/GenerateProgramCommand.ts: the generators

    [random] is the value of [Math.random()], [random k] that of its
    [k]-th call. *)
Module GenerateProgramCommand.

Definition generateCondition (random : Q) : Z :=
  JsNum.floor (JsNum.mul random 100) + 1.

Definition generateHorseColor (random : nat -> Q) : JsString.t :=
  let r := JsNum.floor (JsNum.mul (random 0%nat) 200) + 55 in
  let g := JsNum.floor (JsNum.mul (random 1%nat) 200) + 55 in
  let b := JsNum.floor (JsNum.mul (random 2%nat) 200) + 55 in
  35%N :: JsString.hex2 r ++ JsString.hex2 g ++ JsString.hex2 b.

End GenerateProgramCommand.

(** * Vocabulary of the properties *)

(** The four checks of [Horse.create], in the order id, name, colour,
    condition, each with the error it reports. *)
Definition componentErrors (createHorseId : JsString.t -> option JsString.t)
    (props : Horse.HorseProps) : list (option ValidationError) :=
  [ match createHorseId (Horse.props_id props) with
    | None => Some (mkValidationError "id" "must be a valid UUID")
    | Some _ => None
    end;
    match HorseName.create (Horse.props_name props) with
    | Err e => Some e | Ok _ => None
    end;
    match HorseColor.create (Horse.props_color props) with
    | Err e => Some e | Ok _ => None
    end;
    match Condition.create (Horse.props_condition props) with
    | Err e => Some e | Ok _ => None
    end ].

(** The error of the first invalid component, if any. *)
Fixpoint firstError (checks : list (option ValidationError)) : option ValidationError :=
  match checks with
  | [] => None
  | Some e :: _ => Some e
  | None :: rest => firstError rest
  end.


(** [n] calls of [turn()] in a row, every [Math.random()] returning
    [draw]. *)
Fixpoint turnTimes (draw : Q) (n : nat) (r : Race.t)
  : list (Result unit RaceError) * Race.t :=
  match n with
  | O => ([], r)
  | S n' =>
      let '(rs, r1) := turnTimes draw n' r in
      let '(res, r2) := Race.turn (fun _ => draw) r1 in
      (rs ++ [res], r2)
  end.

(** The lineup indices, lowest first, of the horses that are unfinished in
    [before] and finished in [after]; [i] is the index of the heads. *)
Fixpoint finishersFrom (i : nat) (before after : list RunningHorse.t) : list nat :=
  match before, after with
  | b :: bs, a :: as_ =>
      if negb (RunningHorse.isFinished b) && RunningHorse.isFinished a
      then i :: finishersFrom (S i) bs as_
      else finishersFrom (S i) bs as_
  | _, _ => []
  end.

(** The [HorseFinished] events for the references [refs], pushed in turn
    onto a result list that holds [base] entries. *)
Fixpoint finishEvents (raceId : JsString.t) (hs : list RunningHorse.t)
    (base : nat) (refs : list nat) : list DomainEvent :=
  match refs with
  | [] => []
  | ref :: rest =>
      match hs !! ref with
      | Some h => [HorseFinished raceId (RunningHorse.id h) (RunningHorse.name h)
                     (RunningHorse.position h) (Z.of_nat (S base))]
      | None => []
      end ++ finishEvents raceId hs (S base) rest
  end.

(** The races a program can hold: made by [Race.create], then driven by
    [start()] and [turn()]. *)
Inductive reachable (createRaceId createRunningHorseId : JsString.t -> option JsString.t)
  : Race.t -> Prop :=
| reach_create randomUUID hs distance id r :
    Race.create createRaceId createRunningHorseId randomUUID hs distance id
      = Some (Ok r) ->
    reachable createRaceId createRunningHorseId r
| reach_start r :
    reachable createRaceId createRunningHorseId r ->
    reachable createRaceId createRunningHorseId (snd (Race.start r))
| reach_turn random r :
    reachable createRaceId createRunningHorseId r ->
    reachable createRaceId createRunningHorseId (snd (Race.turn random r)).

(** What a successful turn leaves behind, in one equation. *)
Definition afterTurn (random : nat -> Q) (r : Race.t) : Race.t :=
  let hs' := fst (Race.moveHorses random (Race.raceLength r) 0 0 (Race.horses r) []) in
  let newly := finishersFrom 0 (Race.horses r) hs' in
  let r2 := Race.mk (Race.id r) hs' (Race.distance r) (Race.results r ++ newly)
              (Race.isStarted r) (Race.turnCount r + 1)
              (Race.domainEvents r ++
                 finishEvents (Race.id r) hs' (length (Race.results r)) newly) in
  let r3 := Race.addDomainEvent
              (TurnCompleted (Race.id r) (Race.turnCount r + 1) (Race.positions r2)) r2 in
  if Race.isFinished r3
  then Race.addDomainEvent (RaceFinished (Race.id r) (Race.raceResults r3)) r3
  else r3.

(** Every reference in [results] is distinct and points at a finished
    horse of the lineup. *)
Definition resultsSound (r : Race.t) : Prop :=
  NoDup (Race.results r)
  /\ forall ref, ref ∈ Race.results r ->
       exists h, Race.horses r !! ref = Some h /\ RunningHorse.isFinished h = true.








(** Sample data for the examples. *)
Definition sampleHorse (condition : Z) : Horse.t :=
  Horse.mk (JsString.units "6ba7b810-9dad-11d1-80b4-00c04fd430c8")
    (HorseName.mk (JsString.units "Thunder"))
    (HorseColor.mk (JsString.units "#ff0000")) (Condition.mk condition).

Definition sampleUUID (k : nat) : JsString.t :=
  JsString.units "550e8400-e29b-41d4-a716-446655440000".

(** Every [Math.random()] returns [0.5]. *)
Definition half : nat -> Q := fun _ => JsNum.literal (1 # 2).

(** Two horses of condition 50, both within 26 metres of the line. *)
Definition photoFinish : Race.t :=
  Race.mk (JsString.units "race")
    [RunningHorse.mk (JsString.units "a") (sampleHorse 50) 1190 false;
     RunningHorse.mk (JsString.units "b") (sampleHorse 50) 1180 false]
    (Distance.mk 1200) [] true 7 [].

(** A command on a program without races. *)
Definition emptyProgram : StartRaceCommand.t :=
  StartRaceCommand.mk None StartRaceCommand.DEFAULT_TICK_INTERVAL_MS Timer.new
    (GameStateStore.mk [] 0 false 0) [].

(** * Properties *)

(** ** [Horse.create]: which error comes out *)

Lemma combine_from_cons_ok {T E} (values : list T) (v : T)
    (rest : list (Result T E)) :
  Res.combine_from values (Ok v :: rest) = Res.combine_from (values ++ [v]) rest.
Proof. reflexivity. Qed.

(** [combine] returns the first error of the sequence it is given. *)
Lemma combine_first_error {T E} (oks : list T) (e : E) (rest : list (Result T E)) :
  Res.combine (map Ok oks ++ Err e :: rest) = Err e.
Proof.
  unfold Res.combine. generalize (@nil T) as values.
  induction oks as [|v oks IH]; intros values; simpl; [reflexivity|apply IH].
Qed.

Lemma combine_all_ok {T E} (oks : list T) :
  Res.combine (E := E) (map Ok oks) = Ok oks.
Proof.
  unfold Res.combine.
  assert (H : forall values, Res.combine_from (E := E) values (map Ok oks)
                             = Ok (values ++ oks)).
  { induction oks as [|v oks IH]; intros values; simpl.
    - by rewrite app_nil_r.
    - rewrite IH. by rewrite <- app_assoc. }
  apply H.
Qed.

(** C10. Whatever components of the props are invalid (one or several),
    [Horse.create] returns exactly one [ValidationError]: the error of the
    first invalid component in the order id, name, color, condition; and it
    returns a horse exactly when no component is invalid. *)
Theorem Horse_create_first_error :
  forall (createHorseId : JsString.t -> option JsString.t) (props : Horse.HorseProps),
    match firstError (componentErrors createHorseId props) with
    | Some e => Horse.create createHorseId props = Err e
    | None => exists h, Horse.create createHorseId props = Ok h
    end.
Proof.
  intros createHorseId props. unfold componentErrors, Horse.create.
  destruct (createHorseId (Horse.props_id props)) as [id|]; simpl; [|reflexivity].
  destruct (HorseName.create (Horse.props_name props)) as [n|en]; simpl;
    [|reflexivity].
  destruct (HorseColor.create (Horse.props_color props)) as [c|ec]; simpl;
    [|reflexivity].
  destruct (Condition.create (Horse.props_condition props)) as [k|ek]; simpl;
    [|reflexivity].
  eexists. reflexivity.
Qed.

(** ** [Race.start] and the guards of [Race.turn] *)






(** C6. [turn()] on a race that is not started returns
    [RaceNotStartedError], also when the race is finished as well, and
    leaves the whole race (turn count, results, horses, event buffer) as it
    was; no random number is drawn. *)
Theorem turn_not_started :
  forall (random : nat -> Q) (r : Race.t),
    Race.isStarted r = false ->
    Race.turn random r = (Err (RaceNotStartedError (Race.id r)), r).
Proof. intros random r Hs. unfold Race.turn. by rewrite Hs. Qed.

Lemma turn_not_started_witness :
  let r := Race.mk [] [] (Distance.mk 1200) [] false 0 [] in
  Race.isFinished r = true
  /\ Race.turn (fun _ => 0%Q) r = (Err (RaceNotStartedError []), r).
Proof.
  intros r. split; [reflexivity|].
  exact (turn_not_started (fun _ => 0%Q) r eq_refl).
Defined.

(** ** One turn of the race *)

Lemma run_finished_stays (q : Q) (L : Z) (h : RunningHorse.t) :
  RunningHorse.isFinished h = true -> snd (RunningHorse.run q L h) = h.
Proof. intros H. unfold RunningHorse.run. by rewrite H. Qed.

(** The loop over the lineup: lengths are kept, finished horses are left
    alone, and [newlyFinished] grows by the finishers in lineup order. *)
Lemma moveHorses_spec (random : nat -> Q) (L : Z) (hs : list RunningHorse.t) :
  forall (k i : nat) (acc : list nat),
    exists hs',
      Race.moveHorses random L k i hs acc = (hs', acc ++ finishersFrom i hs hs')
      /\ length hs' = length hs
      /\ (forall j h, hs !! j = Some h -> RunningHorse.isFinished h = true ->
                      hs' !! j = Some h).
Proof.
  induction hs as [|h hs IH]; intros k i acc.
  - exists []. simpl. rewrite app_nil_r. done.
  - simpl. destruct (RunningHorse.isFinished h) eqn:Hfin; simpl.
    + destruct (IH k (S i) acc) as (rest' & -> & Hlen & Hkeep).
      exists (h :: rest'). simpl. rewrite ?Hfin. simpl.
      split; [done|]. split; [by rewrite Hlen|].
      intros [|j] h' Hj Hf; simpl in *; [done|]. by apply Hkeep.
    + destruct (RunningHorse.run (random k) L h) as [res h'] eqn:Er.
      rewrite andb_true_r.
      destruct (IH (S k) (S i)
                  (if RunningHorse.isFinished h' then acc ++ [i] else acc))
        as (rest' & -> & Hlen & Hkeep).
      exists (h' :: rest'). simpl. rewrite ?Hfin. simpl.
      split.
      * f_equal. destruct (RunningHorse.isFinished h'); simpl;
          [by rewrite <- app_assoc|done].
      * split; [by rewrite Hlen|].
        intros [|j] h'' Hj Hf; simpl in *; [congruence|]. by apply Hkeep.
Qed.

Lemma finishersFrom_elem (before after : list RunningHorse.t) :
  forall (i x : nat),
    x ∈ finishersFrom i before after <->
    exists j hb ha, x = (i + j)%nat /\ before !! j = Some hb /\ after !! j = Some ha
                    /\ RunningHorse.isFinished hb = false
                    /\ RunningHorse.isFinished ha = true.
Proof.
  revert after. induction before as [|b bs IH]; intros [|a as_] i x; simpl.
  - split; [by intros ?%elem_of_nil|]. by intros (j & hb & ha & _ & ? & _).
  - split; [by intros ?%elem_of_nil|]. by intros (j & hb & ha & _ & ? & _).
  - split; [by intros ?%elem_of_nil|]. by intros (j & hb & ha & _ & _ & ? & _).
  - assert (Hstep : x ∈ finishersFrom (S i) bs as_ <->
              exists j hb ha, x = (i + S j)%nat /\ bs !! j = Some hb
                /\ as_ !! j = Some ha /\ RunningHorse.isFinished hb = false
                /\ RunningHorse.isFinished ha = true).
    { rewrite IH. split; intros (j & hb & ha & -> & H); exists j, hb, ha;
        (split; [lia|done]). }
    destruct (negb (RunningHorse.isFinished b) && RunningHorse.isFinished a) eqn:E.
    + rewrite elem_of_cons, Hstep. apply andb_true_iff in E as [Eb Ea].
      apply negb_true_iff in Eb. split.
      * intros [->|(j & hb & ha & -> & H)].
        -- exists 0%nat, b, a. split; [lia|done].
        -- exists (S j), hb, ha. done.
      * intros ([|j] & hb & ha & -> & H).
        -- left. lia.
        -- right. exists j, hb, ha. done.
    + rewrite Hstep. split.
      * intros (j & hb & ha & -> & H). exists (S j), hb, ha. done.
      * intros ([|j] & hb & ha & -> & Hb & Ha & Hfb & Hfa); simpl in *.
        -- inversion Hb; inversion Ha; subst. rewrite Hfb, Hfa in E. done.
        -- exists j, hb, ha. done.
Qed.

Lemma finishersFrom_sorted (before after : list RunningHorse.t) :
  forall i, StronglySorted lt (finishersFrom i before after)
            /\ Forall (fun x => (i <= x)%nat) (finishersFrom i before after).
Proof.
  revert after. induction before as [|b bs IH]; intros [|a as_] i; simpl;
    try (split; constructor).
  destruct (IH as_ (S i)) as [Hs Hge].
  assert (Hge' : Forall (fun x => (i <= x)%nat) (finishersFrom (S i) bs as_)).
  { eapply Forall_impl; [exact Hge|]. simpl. lia. }
  destruct (negb (RunningHorse.isFinished b) && RunningHorse.isFinished a).
  - split.
    + constructor; [done|]. eapply Forall_impl; [exact Hge|]. simpl. lia.
    + constructor; [lia|done].
  - done.
Qed.

Lemma indexOf_from_seq (n a : nat) :
  forall (s : nat) (i : Z),
    (s <= a < s + n)%nat ->
    Race.indexOf_from i (seq s n) a = i + Z.of_nat (a - s).
Proof.
  induction n as [|n IH]; intros s i H; simpl; [lia|].
  destruct (Nat.eqb_spec s a) as [->|Hne].
  - replace (a - a)%nat with 0%nat by lia. lia.
  - rewrite IH by lia. lia.
Qed.

Lemma indexOf_lineup (n a : nat) :
  (a < n)%nat -> Race.indexOf (seq 0 n) a = Z.of_nat a.
Proof.
  intros H. unfold Race.indexOf. rewrite indexOf_from_seq by lia.
  replace (a - 0)%nat with a by lia. lia.
Qed.

(** Sorting a list that is already in the order of the comparison leaves
    it as it is. *)
Lemma sort_sorted (compare : nat -> nat -> Z) (l : list nat) :
  StronglySorted (fun a b => compare a b < 0) l -> Race.sort compare l = l.
Proof.
  induction 1 as [|a l Hs IH Hall]; [done|].
  unfold Race.sort in *. cbn [fold_right]. rewrite IH.
  destruct l as [|b l]; simpl; [done|].
  inversion Hall as [|? ? Hab _]; subst.
  apply Z.ltb_lt in Hab. by rewrite Hab.
Qed.

Lemma sort_newlyFinished (n : nat) (l : list nat) :
  StronglySorted lt l -> Forall (fun x => (x < n)%nat) l ->
  Race.sort (fun a b => Race.indexOf (seq 0 n) a - Race.indexOf (seq 0 n) b) l = l.
Proof.
  intros Hs Hlt. apply sort_sorted.
  induction Hs as [|a l Hs IH Hall]; [constructor|].
  inversion Hlt as [|? ? Ha Hl]; subst.
  constructor; [by apply IH|].
  rewrite Forall_forall in Hall, Hl |- *. intros b Hb.
  rewrite !indexOf_lineup by auto. specialize (Hall b Hb). lia.
Qed.

(** The loop over [newlyFinished]: each reference is pushed onto the
    results, and its event is added with the length the results have
    then. *)
Lemma fold_recordFinisher (refs : list nat) :
  forall r : Race.t,
    fold_left Race.recordFinisher refs r =
      Race.mk (Race.id r) (Race.horses r) (Race.distance r)
        (Race.results r ++ refs) (Race.isStarted r) (Race.turnCount r)
        (Race.domainEvents r ++
           finishEvents (Race.id r) (Race.horses r) (length (Race.results r)) refs).
Proof.
  induction refs as [|ref refs IH]; intros r; simpl.
  - rewrite !app_nil_r. by destruct r.
  - rewrite IH. unfold Race.recordFinisher. simpl.
    destruct (Race.horses r !! ref) as [h|]; simpl;
      rewrite ?length_app; simpl; rewrite <- ?app_assoc; simpl;
      replace (length (Race.results r) + 1)%nat with (S (length (Race.results r)))
        by lia; reflexivity.
Qed.

Lemma finishers_valid (random : nat -> Q) (L : Z) (hs : list RunningHorse.t) :
  let hs' := fst (Race.moveHorses random L 0 0 hs []) in
  Forall (fun x => (x < length hs')%nat) (finishersFrom 0 hs hs').
Proof.
  intros hs'. rewrite Forall_forall. intros x Hx.
  apply finishersFrom_elem in Hx as (j & hb & ha & -> & _ & Ha & _).
  apply lookup_lt_Some in Ha. lia.
Qed.

Lemma turn_ok (random : nat -> Q) (r : Race.t) :
  Race.isStarted r = true -> Race.isFinished r = false ->
  Race.turn random r = (Ok tt, afterTurn random r).
Proof.
  intros Hs Hf. unfold Race.turn, afterTurn. rewrite Hs, Hf. simpl.
  pose proof (finishers_valid random (Race.raceLength r) (Race.horses r)) as Hvalid.
  simpl in Hvalid.
  destruct (moveHorses_spec random (Race.raceLength r) (Race.horses r) 0 0 [])
    as (hs' & E & Hlen & _).
  rewrite E in *. simpl in *.
  unfold Race.lineup. simpl.
  rewrite sort_newlyFinished;
    [|apply (finishersFrom_sorted (Race.horses r) hs' 0)|exact Hvalid].
  rewrite fold_recordFinisher. simpl. reflexivity.
Qed.

Lemma turn_cases (random : nat -> Q) (r : Race.t) :
  (Race.isStarted r = false
   /\ Race.turn random r = (Err (RaceNotStartedError (Race.id r)), r))
  \/ (Race.isStarted r = true /\ Race.isFinished r = true
      /\ Race.turn random r = (Err (RaceAlreadyFinishedError (Race.id r)), r))
  \/ (Race.isStarted r = true /\ Race.isFinished r = false
      /\ Race.turn random r = (Ok tt, afterTurn random r)).
Proof.
  destruct (Race.isStarted r) eqn:Hs.
  - destruct (Race.isFinished r) eqn:Hf.
    + right; left. repeat split. unfold Race.turn. by rewrite Hs, Hf.
    + right; right. repeat split. by apply turn_ok.
  - left. split; [done|]. unfold Race.turn. by rewrite Hs.
Qed.

Lemma finishEvents_all_finished (raceId : JsString.t) (hs : list RunningHorse.t)
    (refs : list nat) :
  forall base, Forall (fun e => isHorseFinished e = true)
                 (finishEvents raceId hs base refs).
Proof.
  induction refs as [|ref refs IH]; intros base; simpl; [constructor|].
  destruct (hs !! ref); simpl; [constructor; [done|]|]; apply IH.
Qed.

Lemma finishEvents_lookup (raceId : JsString.t) (hs : list RunningHorse.t)
    (refs : list nat) :
  Forall (fun x => (x < length hs)%nat) refs ->
  forall base,
    length (finishEvents raceId hs base refs) = length refs
    /\ forall k ref, refs !! k = Some ref ->
         exists h, hs !! ref = Some h
           /\ finishEvents raceId hs base refs !! k =
                Some (HorseFinished raceId (RunningHorse.id h) (RunningHorse.name h)
                        (RunningHorse.position h) (Z.of_nat (base + k + 1))).
Proof.
  induction 1 as [|ref refs Href Hrefs IH]; intros base; simpl.
  - split; [done|]. intros k ref Hk. done.
  - destruct (lookup_lt_is_Some_2 hs ref Href) as [h Hh]. rewrite Hh. simpl.
    destruct (IH (S base)) as [Hlen Hlook]. split; [by rewrite Hlen|].
    intros [|k] ref' Hk; simpl in *.
    + inversion Hk; subst. exists h. split; [done|].
      do 3 f_equal. lia.
    + destruct (Hlook k ref' Hk) as (h' & Hh' & E). exists h'. split; [done|].
      rewrite E. do 3 f_equal. lia.
Qed.

Lemma afterTurn_isFinished_cases (random : nat -> Q) (r : Race.t) :
  let hs' := fst (Race.moveHorses random (Race.raceLength r) 0 0 (Race.horses r) []) in
  let newly := finishersFrom 0 (Race.horses r) hs' in
  Race.horses (afterTurn random r) = hs'
  /\ Race.results (afterTurn random r) = Race.results r ++ newly
  /\ Race.id (afterTurn random r) = Race.id r
  /\ Race.turnCount (afterTurn random r) = Race.turnCount r + 1
  /\ Race.isStarted (afterTurn random r) = Race.isStarted r
  /\ exists completed final,
       Race.domainEvents (afterTurn random r) =
         Race.domainEvents r
           ++ finishEvents (Race.id r) hs' (length (Race.results r)) newly
           ++ [completed] ++ final
       /\ isTurnCompleted completed = true
       /\ ((Race.isFinished (afterTurn random r) = true
            /\ exists e, final = [e] /\ isRaceFinished e = true)
           \/ (Race.isFinished (afterTurn random r) = false /\ final = [])).
Proof.
  intros hs' newly. unfold afterTurn. fold hs'. fold newly.
  set (r2 := Race.mk _ hs' _ _ _ _ _).
  set (r3 := Race.addDomainEvent _ r2).
  assert (E3 : Race.isFinished r3 = Race.isFinished r2) by reflexivity.
  destruct (Race.isFinished r3) eqn:Hf.
  - repeat split; try reflexivity.
    eexists _, _. split; [|split; [|left; split; [exact Hf|]]].
    + simpl. rewrite <- !app_assoc. reflexivity.
    + reflexivity.
    + eexists. split; reflexivity.
  - repeat split; try reflexivity.
    eexists _, []. split; [|split; [|right; split; [exact Hf|reflexivity]]].
    + simpl. rewrite <- !app_assoc. reflexivity.
    + reflexivity.
Qed.

(** C1. The events a successful [turn()] appends to the buffer are, in
    order: zero or more [HorseFinished], then exactly one [TurnCompleted],
    then a [RaceFinished] if the race became finished during the turn, and
    nothing otherwise. *)
Theorem turn_event_order :
  forall (random : nat -> Q) (r r' : Race.t),
    Race.turn random r = (Ok tt, r') ->
    exists finished completed final,
      Race.domainEvents r' =
        Race.domainEvents r ++ finished ++ [completed] ++ final
      /\ Forall (fun e => isHorseFinished e = true) finished
      /\ isTurnCompleted completed = true
      /\ Race.isFinished r = false
      /\ ((Race.isFinished r' = true
           /\ exists e, final = [e] /\ isRaceFinished e = true)
          \/ (Race.isFinished r' = false /\ final = [])).
Proof.
  intros random r r' H.
  destruct (turn_cases random r) as [[_ E]|[(_ & _ & E)|(_ & Hf & E)]];
    rewrite E in H; inversion H; subst r'.
  destruct (afterTurn_isFinished_cases random r)
    as (_ & _ & _ & _ & _ & completed & final & Ev & Hc & Hfinal).
  eexists _, completed, final. split; [exact Ev|].
  split; [apply finishEvents_all_finished|]. done.
Qed.

(** C2. In a successful [turn()], the horses that go from unfinished to
    finished are appended to [results] in lineup order, lowest index first;
    for each of them one [HorseFinished] event is emitted, in the same
    order, and its [place] is the 1-based index the horse has in [results]
    when it is inserted. *)
Theorem turn_finish_order :
  forall (random : nat -> Q) (r r' : Race.t),
    Race.turn random r = (Ok tt, r') ->
    exists (newly : list nat) (finished rest : list DomainEvent),
      Race.results r' = Race.results r ++ newly
      /\ (forall i, i ∈ newly <->
            exists hb ha, Race.horses r !! i = Some hb
              /\ Race.horses r' !! i = Some ha
              /\ RunningHorse.isFinished hb = false
              /\ RunningHorse.isFinished ha = true)
      /\ StronglySorted lt newly
      /\ Race.domainEvents r' = Race.domainEvents r ++ finished ++ rest
      /\ Forall (fun e => isHorseFinished e = false) rest
      /\ length finished = length newly
      /\ forall k ref, newly !! k = Some ref ->
           exists h, Race.horses r' !! ref = Some h
             /\ Race.results r' !! (length (Race.results r) + k)%nat = Some ref
             /\ finished !! k =
                  Some (HorseFinished (Race.id r) (RunningHorse.id h)
                          (RunningHorse.name h) (RunningHorse.position h)
                          (Z.of_nat (length (Race.results r) + k + 1))).
Proof.
  intros random r r' H.
  destruct (turn_cases random r) as [[_ E]|[(_ & _ & E)|(_ & Hf & E)]];
    rewrite E in H; inversion H; subst r'.
  destruct (afterTurn_isFinished_cases random r)
    as (Eh & Er & _ & _ & _ & completed & final & Ev & Hc & Hfinal).
  set (hs' := fst (Race.moveHorses random (Race.raceLength r) 0 0 (Race.horses r) []))
    in *.
  set (newly := finishersFrom 0 (Race.horses r) hs') in *.
  pose proof (finishers_valid random (Race.raceLength r) (Race.horses r)) as Hvalid.
  simpl in Hvalid. fold hs' in Hvalid. fold newly in Hvalid.
  destruct (finishEvents_lookup (Race.id r) hs' newly Hvalid
              (length (Race.results r))) as [Hlen Hlook].
  exists newly, (finishEvents (Race.id r) hs' (length (Race.results r)) newly),
    ([completed] ++ final).
  split; [exact Er|]. split.
  { intros i. subst newly. rewrite finishersFrom_elem. rewrite Eh. split.
    - intros (j & hb & ha & -> & H1). exists hb, ha. exact H1.
    - intros (hb & ha & H1). exists i, hb, ha. split; [lia|exact H1]. }
  split; [apply (finishersFrom_sorted (Race.horses r) hs' 0)|].
  split; [exact Ev|]. split.
  { constructor; [by destruct completed|].
    destruct Hfinal as [(_ & e & -> & He)|(_ & ->)]; [|constructor].
    constructor; [by destruct e|constructor]. }
  split; [exact Hlen|].
  intros k ref Hk. destruct (Hlook k ref Hk) as (h & Hh & Ek).
  exists h. rewrite Eh, Er. split; [exact Hh|]. split; [|exact Ek].
  rewrite lookup_app_r by lia.
  replace (length (Race.results r) + k - length (Race.results r))%nat with k by lia.
  exact Hk.
Qed.

(** ** The invariants of a race *)

Lemma create_fresh (createRaceId createRunningHorseId : JsString.t -> option JsString.t)
    (randomUUID : nat -> JsString.t) (hs : list Horse.t) (distance : Distance.t)
    (id : option JsString.t) (r : Race.t) :
  Race.create createRaceId createRunningHorseId randomUUID hs distance id
    = Some (Ok r) ->
  Race.results r = [] /\ Race.isStarted r = false /\ Race.turnCount r = 0
  /\ Race.domainEvents r = [] /\ Race.distance r = distance.
Proof.
  unfold Race.create. destruct (Nat.eqb (length hs) 0); [done|].
  destruct id as [i|]; simpl.
  - destruct (Race.createAll _ _ _ _); simpl; [|done].
    intros H; inversion H; subst; done.
  - destruct (createRaceId _); simpl; [|done].
    destruct (Race.createAll _ _ _ _); simpl; [|done].
    intros H; inversion H; subst; done.
Qed.

Lemma start_keeps (r : Race.t) :
  Race.results (snd (Race.start r)) = Race.results r
  /\ Race.horses (snd (Race.start r)) = Race.horses r.
Proof.
  unfold Race.start. destruct (Race.isFinished r); [done|].
  destruct (Race.isStarted r); done.
Qed.

Lemma StronglySorted_lt_NoDup (l : list nat) : StronglySorted lt l -> NoDup l.
Proof.
  induction 1 as [|a l Hs IH Hall]; constructor; [|done].
  intros Hin. rewrite Forall_forall in Hall. specialize (Hall a Hin). lia.
Qed.

Lemma afterTurn_sound (random : nat -> Q) (r : Race.t) :
  resultsSound r -> resultsSound (afterTurn random r).
Proof.
  intros [Hnd Hfin].
  destruct (afterTurn_isFinished_cases random r) as (Eh & Er & _).
  destruct (moveHorses_spec random (Race.raceLength r) (Race.horses r) 0 0 [])
    as (hs' & E & Hlen & Hkeep).
  rewrite E in Eh, Er. simpl in Eh, Er.
  unfold resultsSound. rewrite Eh, Er. split.
  - apply NoDup_app. split; [done|]. split.
    + intros x Hx Hx'. destruct (Hfin x Hx) as (h & Hh & Hf).
      apply finishersFrom_elem in Hx' as (j & hb & ha & Ej & Hb & _ & Hfb & _).
      simpl in Ej. subst x. congruence.
    + apply StronglySorted_lt_NoDup, (finishersFrom_sorted (Race.horses r) hs' 0).
  - intros ref [Hin|Hin]%elem_of_app.
    + destruct (Hfin ref Hin) as (h & Hh & Hf). exists h. split; [|done].
      by apply Hkeep.
    + apply finishersFrom_elem in Hin as (j & hb & ha & Ej & _ & Ha & _ & Hfa).
      simpl in Ej. subst ref. exists ha. done.
Qed.

Lemma reachable_sound (createRaceId createRunningHorseId : JsString.t -> option JsString.t)
    (r : Race.t) :
  reachable createRaceId createRunningHorseId r -> resultsSound r.
Proof.
  induction 1 as [randomUUID hs distance id r Hc|r Hr IH|random r Hr IH].
  - apply create_fresh in Hc as (Hres & _). unfold resultsSound. rewrite Hres.
    split; [constructor|]. by intros ref ?%elem_of_nil.
  - destruct (start_keeps r) as [Er Eh]. unfold resultsSound. by rewrite Er, Eh.
  - destruct (turn_cases random r) as [[_ E]|[(_ & _ & E)|(_ & _ & E)]];
      rewrite E; simpl; [done|done|by apply afterTurn_sound].
Qed.

Lemma resultsSound_length (r : Race.t) :
  resultsSound r -> (length (Race.results r) <= length (Race.horses r))%nat.
Proof.
  intros [Hnd Hfin].
  replace (length (Race.horses r))
    with (length (seq 0 (length (Race.horses r)))) at 1 by apply length_seq.
  apply NoDup_incl_length; [by apply NoDup_ListNoDup|].
  intros x Hx%list_elem_of_In. destruct (Hfin x Hx) as (h & Hh & _).
  apply lookup_lt_Some in Hh. apply in_seq. lia.
Qed.

(** C4. In every race made by [Race.create] and driven by any calls of
    [start()] and [turn()]: [results] is no longer than the lineup; the race
    is finished exactly when the two have the same length; no horse occurs
    twice in [results]; and every horse in [results] has its own
    [isFinished] set. *)
Theorem results_invariant :
  forall (createRaceId createRunningHorseId : JsString.t -> option JsString.t)
         (r : Race.t),
    reachable createRaceId createRunningHorseId r ->
    (length (Race.results r) <= length (Race.horses r))%nat
    /\ (Race.isFinished r = true <->
        length (Race.results r) = length (Race.horses r))
    /\ NoDup (Race.results r)
    /\ forall ref, ref ∈ Race.results r ->
         exists h, Race.horses r !! ref = Some h
                   /\ RunningHorse.isFinished h = true.
Proof.
  intros createRaceId createRunningHorseId r Hr.
  pose proof (reachable_sound _ _ r Hr) as Hs.
  split; [by apply resultsSound_length|].
  split; [unfold Race.isFinished; apply Nat.eqb_eq|].
  exact Hs.
Qed.

(** ** The one-horse scenario *)

Lemma create_single (createRaceId createRunningHorseId : JsString.t -> option JsString.t)
    (randomUUID : nat -> JsString.t) (horse : Horse.t) (distance : Distance.t)
    (id : option JsString.t) (r : Race.t) :
  Race.create createRaceId createRunningHorseId randomUUID [horse] distance id
    = Some (Ok r) ->
  exists raceId horseId,
    r = Race.mk raceId [RunningHorse.mk horseId horse 0 false] distance [] false 0 [].
Proof.
  unfold Race.create. simpl. destruct id as [i|]; simpl.
  - unfold RunningHorse.create. simpl.
    destruct (createRunningHorseId _) as [hid|]; simpl; [|done].
    intros H; inversion H. by eexists _, _.
  - destruct (createRaceId _) as [rid|]; simpl; [|done].
    unfold RunningHorse.create. simpl.
    destruct (createRunningHorseId _) as [hid|]; simpl; [|done].
    intros H; inversion H. by eexists _, _.
Qed.

(** C7. One horse of condition 100 over 1200 metres, the race started and
    every [Math.random()] returning the Number [0.99]: each of the turns
    moves the horse by exactly 100; after [n <= 11] turns it stands at
    [100 * n], unfinished; the 12th turn finishes it at exactly 1200, and
    then the turn count is 12, [results] holds that horse alone, and the
    buffer holds exactly one [RaceFinished], with the single entry of
    place 1. *)
Theorem one_horse_scenario :
  forall (createRaceId createRunningHorseId : JsString.t -> option JsString.t)
         (randomUUID : nat -> JsString.t) (horse : Horse.t)
         (id : option JsString.t) (r0 : Race.t),
    Condition.value (Horse.condition horse) = 100 ->
    Race.create createRaceId createRunningHorseId randomUUID [horse]
      (Distance.mk 1200) id = Some (Ok r0) ->
    let draw := JsNum.literal (99 # 100) in
    let started := snd (Race.start r0) in
    (forall n, (n <= 11)%nat ->
       exists h, turnTimes draw n started
                 = (replicate n (Ok tt),
                    snd (turnTimes draw n started))
         /\ Race.horses (snd (turnTimes draw n started)) = [h]
         /\ RunningHorse.position h = 100 * Z.of_nat n
         /\ RunningHorse.isFinished h = false
         /\ RunningHorse.movement draw h = 100
         /\ Race.turnCount (snd (turnTimes draw n started)) = Z.of_nat n
         /\ Race.isFinished (snd (turnTimes draw n started)) = false)
    /\ exists h r12,
         turnTimes draw 12 started = (replicate 12 (Ok tt), r12)
         /\ Race.horses r12 = [h]
         /\ RunningHorse.horse h = horse
         /\ RunningHorse.position h = 1200
         /\ RunningHorse.isFinished h = true
         /\ Race.turnCount r12 = 12
         /\ Race.results r12 = [0%nat]
         /\ Race.resultHorses r12 = [h]
         /\ Race.isFinished r12 = true
         /\ filter (fun e => isRaceFinished e = true) (Race.domainEvents r12)
            = [RaceFinished (Race.id r12)
                 [RaceResult.mk 1 (RunningHorse.id h) (RunningHorse.name h) 1200]].
Proof.
  intros createRaceId createRunningHorseId randomUUID horse id r0 Hc Hr draw started.
  apply create_single in Hr as (raceId & horseId & ->).
  destruct horse as [hid hname hcolor [c]]. simpl in Hc. subst c.
  subst started draw. split.
  - intros n Hn.
    do 12 (destruct n as [|n];
           [eexists; repeat (split; [vm_compute; reflexivity|]);
            vm_compute; reflexivity|]).
    lia.
  - eexists _, _. repeat (split; [vm_compute; reflexivity|]).
    vm_compute; reflexivity.
Qed.

(** ** The event bus *)









(** ** The race-loop driver *)

Lemma getCurrentRace_Some (s : GameStateStore.t) (race : Race.t) :
  GameStateStore.getCurrentRace s = Some race ->
  0 <= GameStateStore.currentRaceIndex s
       < Z.of_nat (length (GameStateStore.races s)).
Proof.
  unfold GameStateStore.getCurrentRace.
  destruct (Z.ltb_spec (GameStateStore.currentRaceIndex s) 0) as [|Hge]; [done|].
  intros Hl%lookup_lt_Some. lia.
Qed.

Lemma getCurrentRace_in_range (s : GameStateStore.t) :
  0 <= GameStateStore.currentRaceIndex s
       < Z.of_nat (length (GameStateStore.races s)) ->
  exists race, GameStateStore.getCurrentRace s = Some race.
Proof.
  intros H. unfold GameStateStore.getCurrentRace.
  destruct (Z.ltb_spec (GameStateStore.currentRaceIndex s) 0); [lia|].
  apply lookup_lt_is_Some_2. lia.
Qed.

(** The state in which [handleRaceComplete()] calls [execute()] again. *)
Lemma handleRaceComplete_next (execute : StartRaceCommand.t -> StartRaceCommand.Outcome)
    (c : StartRaceCommand.t) :
  0 <= GameStateStore.currentRaceIndex (StartRaceCommand.stateStore c) ->
  (exists c',
     StartRaceCommand.handleRaceCompleteWith execute c = execute c'
     /\ GameStateStore.isRunning (StartRaceCommand.stateStore c') = false
     /\ length (GameStateStore.races (StartRaceCommand.stateStore c'))
        = length (GameStateStore.races (StartRaceCommand.stateStore c))
     /\ GameStateStore.currentRaceIndex (StartRaceCommand.stateStore c')
        = GameStateStore.currentRaceIndex (StartRaceCommand.stateStore c) + 1
     /\ GameStateStore.currentRaceIndex (StartRaceCommand.stateStore c')
        < Z.of_nat (length (GameStateStore.races (StartRaceCommand.stateStore c'))))
  \/ (exists c', StartRaceCommand.handleRaceCompleteWith execute c = Some (Ok tt, c')).
Proof.
  intros Hidx. unfold StartRaceCommand.handleRaceCompleteWith.
  set (c1 := StartRaceCommand.clearInterval c).
  assert (E1 : StartRaceCommand.stateStore c1 = StartRaceCommand.stateStore c).
  { subst c1. unfold StartRaceCommand.clearInterval.
    by destruct (StartRaceCommand.intervalId c). }
  unfold GameStateStore.advanceToNextRace. simpl. rewrite E1.
  destruct (Z.ltb_spec
              (GameStateStore.currentRaceIndex (StartRaceCommand.stateStore c) + 1)
              (Z.of_nat (length (GameStateStore.races (StartRaceCommand.stateStore c)))));
    simpl.
  - left. eexists. split; [reflexivity|]. simpl. done.
  - right. by eexists.
Qed.

Lemma execute_within_total (fuel : nat) :
  forall c : StartRaceCommand.t,
    (1 <= fuel)%nat ->
    (0 <= GameStateStore.currentRaceIndex (StartRaceCommand.stateStore c) ->
     Z.of_nat (length (GameStateStore.races (StartRaceCommand.stateStore c)))
       - GameStateStore.currentRaceIndex (StartRaceCommand.stateStore c)
     < Z.of_nat fuel) ->
    exists out, StartRaceCommand.execute_within fuel c = Some out.
Proof.
  induction fuel as [|fuel IH]; intros c Hfuel Hmeasure; [lia|]. simpl.
  destruct (GameStateStore.isRunning (StartRaceCommand.stateStore c)); [by eexists|].
  destruct (GameStateStore.getCurrentRace (StartRaceCommand.stateStore c))
    as [race|] eqn:Hrace; [|by eexists].
  apply getCurrentRace_Some in Hrace as Hrange.
  destruct (Race.start race) as [startResult race1] eqn:Hstart.
  destruct startResult as [[]|e]; simpl.
  - by eexists.
  - set (c1 := StartRaceCommand.withStore _ c).
    destruct (handleRaceComplete_next (StartRaceCommand.execute_within fuel) c1)
      as [(c' & -> & _ & Hlen & Hidx & Hlt)|(c' & ->)];
      [simpl; lia| |by eexists].
    apply IH.
    + subst c1. simpl in Hlen, Hidx. rewrite length_insert in Hlen. lia.
    + subst c1. simpl in Hlen, Hidx. rewrite length_insert in Hlen. lia.
Qed.

Lemma execute_within_error (fuel : nat) :
  forall (c c' : StartRaceCommand.t) (e : RaceError),
    StartRaceCommand.execute_within fuel c = Some (Err e, c') ->
    e = RaceNotFoundError
          (GameStateStore.getCurrentRaceIndex (StartRaceCommand.stateStore c))
    /\ GameStateStore.isRunning (StartRaceCommand.stateStore c) = false
    /\ GameStateStore.getCurrentRace (StartRaceCommand.stateStore c) = None
    /\ c' = c.
Proof.
  induction fuel as [|fuel IH]; intros c c' e; simpl; [done|].
  destruct (GameStateStore.isRunning (StartRaceCommand.stateStore c)); [done|].
  destruct (GameStateStore.getCurrentRace (StartRaceCommand.stateStore c))
    as [race|] eqn:Hrace.
  - apply getCurrentRace_Some in Hrace as Hrange.
    destruct (Race.start race) as [startResult race1] eqn:Hstart.
    destruct startResult as [[]|e1]; simpl; [done|].
    set (c1 := StartRaceCommand.withStore _ c).
    destruct (handleRaceComplete_next (StartRaceCommand.execute_within fuel) c1)
      as [(c2 & -> & _ & Hlen & Hidx & Hlt)|(c2 & ->)]; [simpl; lia| |done].
    intros H. apply IH in H as (_ & _ & Hnone & _).
    destruct (getCurrentRace_in_range (StartRaceCommand.stateStore c2)) as [r Hr];
      [|congruence].
    subst c1. simpl in Hidx. lia.
  - intros [= <- <-]. done.
Qed.

(** C9. [execute()] returns success and leaves the command, the store and
    the timer as they are when the store's running flag is set; when it is
    not set and the store has no current race, it returns
    [RaceNotFoundError] with the current index and again changes nothing, so
    no timer is scheduled.  It always returns, and that error is the only
    one it returns. *)
Theorem execute_guards :
  forall c : StartRaceCommand.t,
    (GameStateStore.isRunning (StartRaceCommand.stateStore c) = true ->
     StartRaceCommand.execute c = Some (Ok tt, c))
    /\ (GameStateStore.isRunning (StartRaceCommand.stateStore c) = false ->
        GameStateStore.getCurrentRace (StartRaceCommand.stateStore c) = None ->
        StartRaceCommand.execute c =
          Some (Err (RaceNotFoundError
                       (GameStateStore.getCurrentRaceIndex
                          (StartRaceCommand.stateStore c))), c))
    /\ (exists out, StartRaceCommand.execute c = Some out)
    /\ (forall e c',
          StartRaceCommand.execute c = Some (Err e, c') ->
          e = RaceNotFoundError
                (GameStateStore.getCurrentRaceIndex (StartRaceCommand.stateStore c))
          /\ GameStateStore.isRunning (StartRaceCommand.stateStore c) = false
          /\ GameStateStore.getCurrentRace (StartRaceCommand.stateStore c) = None
          /\ c' = c).
Proof.
  intros c. unfold StartRaceCommand.execute. repeat split.
  - intros Hrun. simpl. by rewrite Hrun.
  - intros Hrun Hnone. simpl. by rewrite Hrun, Hnone.
  - apply execute_within_total; lia.
  - by eapply execute_within_error.
  - by eapply execute_within_error.
  - by eapply execute_within_error.
  - by eapply execute_within_error.
Qed.

(** ** Binary64 products below an integer *)

Section Binary64.

Local Open Scope Q_scope.

Lemma pow2_pos (e : Z) : 0 < JsNum.pow2 e.
Proof. apply Qpower_0_lt. reflexivity. Qed.

Lemma pow2_add (a b : Z) : JsNum.pow2 (a + b) == JsNum.pow2 a * JsNum.pow2 b.
Proof. apply Qpower_plus. discriminate. Qed.

Lemma pow2_opp (e : Z) : JsNum.pow2 (- e) * JsNum.pow2 e == 1.
Proof. rewrite <- pow2_add. replace (- e + e)%Z with 0%Z by lia. reflexivity. Qed.

Lemma pow2_le (a b : Z) : (a <= b)%Z -> JsNum.pow2 a <= JsNum.pow2 b.
Proof. intros H. apply Qpower_le_compat_l; [exact H|discriminate]. Qed.

Lemma pow2_lt_inv (a b : Z) : JsNum.pow2 a < JsNum.pow2 b -> (a < b)%Z.
Proof. intros H. apply (Qpower_lt_compat_l_inv 2); [exact H|reflexivity]. Qed.

Lemma pow2_Z (n : Z) : (0 <= n)%Z -> inject_Z (2 ^ n) == JsNum.pow2 n.
Proof. intros H. unfold JsNum.pow2. by rewrite Zpower_Qpower. Qed.

(** Moving a power of two to the other side of an inequality. *)
Lemma pow2_shift_lt (x y : Q) (b : Z) :
  x * JsNum.pow2 b < y -> x < y * JsNum.pow2 (- b).
Proof.
  intros H. pose proof (pow2_pos (- b)) as Hp. pose proof (pow2_opp b) as Ho.
  assert (E : x == x * JsNum.pow2 b * JsNum.pow2 (- b)).
  { rewrite <- Qmult_assoc, (Qmult_comm (JsNum.pow2 b)), Ho. ring. }
  rewrite E. apply Qmult_lt_compat_r; assumption.
Qed.

Lemma pow2_shift_le (x y : Q) (b : Z) :
  x <= y * JsNum.pow2 b -> x * JsNum.pow2 (- b) <= y.
Proof.
  intros H. pose proof (pow2_pos (- b)) as Hp. pose proof (pow2_opp b) as Ho.
  assert (E : y == y * JsNum.pow2 b * JsNum.pow2 (- b)).
  { rewrite <- Qmult_assoc, (Qmult_comm (JsNum.pow2 b)), Ho. ring. }
  rewrite E. apply Qmult_le_compat_r; [assumption|]. by apply Qlt_le_weak.
Qed.

(** [log2_floor] brackets a positive rational between two powers of
    two. *)
Lemma log2_floor_spec (q : Q) :
  0 < q ->
  JsNum.pow2 (JsNum.log2_floor q) <= q /\ q < JsNum.pow2 (JsNum.log2_floor q + 1).
Proof.
  intros Hq. destruct q as [n d].
  assert (Hn : (0 < n)%Z).
  { unfold Qlt in Hq. simpl in Hq. lia. }
  unfold JsNum.log2_floor. simpl Qnum. simpl Qden.
  set (a := Z.log2 n). set (b := Z.log2 (Z.pos d)).
  destruct (Z.log2_spec n Hn) as [Ha1 Ha2]. fold a in Ha1, Ha2.
  destruct (Z.log2_spec (Z.pos d) eq_refl) as [Hb1 Hb2]. fold b in Hb1, Hb2.
  assert (Ha0 : (0 <= a)%Z) by apply Z.log2_nonneg.
  assert (Hb0 : (0 <= b)%Z) by apply Z.log2_nonneg.
  assert (E : (n # d) * inject_Z (Z.pos d) == inject_Z n).
  { unfold Qeq, Qmult, inject_Z. simpl. lia. }
  assert (Qa1 : JsNum.pow2 a <= inject_Z n).
  { rewrite <- pow2_Z by done. by rewrite <- Zle_Qle. }
  assert (Qa2 : inject_Z n < JsNum.pow2 (a + 1)).
  { rewrite <- pow2_Z by lia. rewrite <- Zlt_Qlt.
    replace (a + 1)%Z with (Z.succ a) by lia. done. }
  assert (Qb1 : JsNum.pow2 b <= inject_Z (Z.pos d)).
  { rewrite <- pow2_Z by done. by rewrite <- Zle_Qle. }
  assert (Qb2 : inject_Z (Z.pos d) < JsNum.pow2 (b + 1)).
  { rewrite <- pow2_Z by lia. rewrite <- Zlt_Qlt.
    replace (b + 1)%Z with (Z.succ b) by lia. done. }
  assert (Upper : (n # d) < JsNum.pow2 (a - b + 1)).
  { replace (a - b + 1)%Z with ((a + 1) + - b)%Z by lia.
    rewrite pow2_add. apply pow2_shift_lt.
    apply Qle_lt_trans with ((n # d) * inject_Z (Z.pos d)).
    - apply Qmult_le_l; [exact Hq|exact Qb1].
    - rewrite E. exact Qa2. }
  assert (Lower : JsNum.pow2 (a - b - 1) <= (n # d)).
  { replace (a - b - 1)%Z with (a + - (b + 1))%Z by lia.
    rewrite pow2_add. apply pow2_shift_le.
    apply Qle_trans with ((n # d) * inject_Z (Z.pos d)).
    - rewrite E. exact Qa1.
    - apply Qmult_le_l; [exact Hq|]. by apply Qlt_le_weak. }
  destruct (Qle_bool (JsNum.pow2 (a - b)) (n # d)) eqn:Htest.
  - split; [by apply Qle_bool_iff|exact Upper].
  - split; [exact Lower|].
    replace (a - b - 1 + 1)%Z with (a - b)%Z by lia.
    apply Qnot_le_lt. intros Hle. apply Qle_bool_iff in Hle. congruence.
Qed.

Lemma round_half_even_below (x : Q) (n : Z) :
  x < inject_Z n - (1 # 2) -> (JsNum.round_half_even x <= n - 1)%Z.
Proof.
  intros H. unfold JsNum.round_half_even.
  pose proof (Qfloor_le x) as Hf.
  assert (Hcase : (Qfloor x <= n - 1)%Z
                  /\ ((1 # 2) <= x - inject_Z (Qfloor x) ->
                      (Qfloor x + 1 <= n - 1)%Z)).
  { split.
    - assert (Hlt : inject_Z (Qfloor x) < inject_Z n) by lra.
      rewrite <- Zlt_Qlt in Hlt. lia.
    - intros Hhalf.
      assert (Hlt : inject_Z (Qfloor x + 1) < inject_Z n).
      { rewrite inject_Z_plus. change (inject_Z 1) with 1. lra. }
      rewrite <- Zlt_Qlt in Hlt. lia. }
  destruct Hcase as [H1 H2].
  destruct (Qcompare_spec (x - inject_Z (Qfloor x)) (1 # 2)) as [E|L|G].
  - destruct (Z.even (Qfloor x)); [exact H1|]. apply H2. rewrite E. apply Qle_refl.
  - exact H1.
  - apply H2. by apply Qlt_le_weak.
Qed.

Lemma round_half_even_nonneg (x : Q) : 0 <= x -> (0 <= JsNum.round_half_even x)%Z.
Proof.
  intros H. unfold JsNum.round_half_even.
  pose proof (Qfloor_resp_le 0 x H) as Hf. change (Qfloor 0) with 0%Z in Hf.
  destruct (Qcompare _ _); [destruct (Z.even _)| |]; lia.
Qed.

Lemma b64_round_pos (q : Q) :
  0 < q ->
  JsNum.b64_round q =
    inject_Z (JsNum.round_half_even (q * JsNum.pow2 (- JsNum.ulp_exp q)))
    * JsNum.pow2 (JsNum.ulp_exp q).
Proof.
  intros H. unfold JsNum.b64_round.
  apply Qgt_alt in H. by rewrite H.
Qed.

(** The largest Number below one is [1 - 2^-53]. *)
Lemma b64_below_one (r : Q) :
  JsNum.is_b64 r = true -> 0 < r -> r < 1 -> r <= 1 - JsNum.pow2 (-53).
Proof.
  intros Hb Hpos Hlt. unfold JsNum.is_b64 in Hb. apply Qeq_bool_iff in Hb.
  rewrite (b64_round_pos r Hpos) in Hb.
  destruct (log2_floor_spec r Hpos) as [Hlo Hup].
  assert (Hneg : (JsNum.log2_floor r < 0)%Z).
  { apply pow2_lt_inv. apply Qle_lt_trans with r; [exact Hlo|exact Hlt]. }
  destruct (Z.eq_dec (JsNum.log2_floor r) (-1)%Z) as [E|NE].
  - assert (Ee : JsNum.ulp_exp r = (-53)%Z).
    { unfold JsNum.ulp_exp. rewrite E. reflexivity. }
    rewrite Ee in Hb.
    set (M := JsNum.round_half_even _) in Hb.
    change (JsNum.pow2 (-53)) with (1 # 9007199254740992) in *.
    assert (HM : inject_Z M < inject_Z 9007199254740992).
    { assert (inject_Z M * (1 # 9007199254740992) < 1) by (rewrite Hb; exact Hlt).
      change (inject_Z 9007199254740992) with (9007199254740992 # 1). lra. }
    rewrite <- Zlt_Qlt in HM.
    assert (HM' : inject_Z M <= inject_Z 9007199254740991).
    { rewrite <- Zle_Qle. lia. }
    change (inject_Z 9007199254740991) with (9007199254740991 # 1) in HM'.
    rewrite <- Hb. lra.
  - assert (Hhalf : r < JsNum.pow2 (-1)).
    { apply Qlt_le_trans with (JsNum.pow2 (JsNum.log2_floor r + 1)); [exact Hup|].
      apply pow2_le. lia. }
    change (JsNum.pow2 (-1)) with (1 # 2) in Hhalf.
    change (JsNum.pow2 (-53)) with (1 # 9007199254740992). lra.
Qed.

End Binary64.

Section Movement.

Local Open Scope Q_scope.

(** A Number in [[0,1)] times an integer [c] in [[1,100]] rounds to a
    Number in [[0,c)]: the product is at least [c * 2^-53] short of [c],
    which is more than half a unit in the last place. *)
Lemma mul_random_below (r : Q) (c : Z) :
  JsNum.is_b64 r = true -> 0 <= r -> r < 1 -> (1 <= c <= 100)%Z ->
  0 <= JsNum.mul r (inject_Z c) /\ JsNum.mul r (inject_Z c) < inject_Z c.
Proof.
  intros Hb H0 H1 Hc. unfold JsNum.mul. rewrite Qred_correct.
  assert (Hc1 : 1 <= inject_Z c).
  { change 1 with (inject_Z 1). rewrite <- Zle_Qle. lia. }
  assert (Hc100 : inject_Z c <= 100).
  { change 100 with (inject_Z 100). rewrite <- Zle_Qle. lia. }
  destruct (Qle_lt_or_eq _ _ H0) as [Hpos|Hz].
  2:{ unfold JsNum.b64_round.
      assert (E : (r * inject_Z c ?= 0) = Eq).
      { apply Qeq_alt. rewrite <- Hz. ring. }
      rewrite E. lra. }
  set (q := r * inject_Z c).
  assert (Hq : 0 < q).
  { subst q. apply Qmult_lt_0_compat; lra. }
  pose proof (b64_below_one r Hb Hpos H1) as Hr.
  change (JsNum.pow2 (-53)) with (1 # 9007199254740992) in Hr.
  assert (Hgap : inject_Z c * (1 # 9007199254740992) <= inject_Z c - q).
  { subst q. nra. }
  assert (Hqc : q < inject_Z c) by lra.
  rewrite (b64_round_pos q Hq).
  destruct (log2_floor_spec q Hq) as [Hlo _].
  set (m := Z.max (JsNum.log2_floor q) (-1022)).
  assert (Ee : JsNum.ulp_exp q = (m - 52)%Z) by reflexivity.
  rewrite Ee. set (e := (m - 52)%Z).
  assert (Hm : JsNum.pow2 m < inject_Z c).
  { subst m. destruct (Z.max_spec (JsNum.log2_floor q) (-1022)) as [[_ ->]|[_ ->]].
    - apply Qlt_le_trans with 1; [|exact Hc1].
      change 1 with (JsNum.pow2 0). apply Qpower_lt_compat_l; [lia|reflexivity].
    - lra. }
  assert (Hm7 : (m < 7)%Z).
  { apply pow2_lt_inv. change (JsNum.pow2 7) with 128. lra. }
  assert (He : (0 <= - e)%Z) by (subst e; lia).
  set (A := JsNum.pow2 (- e)). set (B := JsNum.pow2 e).
  assert (HA : 0 < A) by apply pow2_pos.
  assert (HB : 0 < B) by apply pow2_pos.
  assert (HAB : A * B == 1) by apply pow2_opp.
  assert (HCz : inject_Z (c * 2 ^ (- e)) == inject_Z c * A).
  { rewrite inject_Z_mult. subst A. by rewrite pow2_Z. }
  (* [c - q], in units in the last place, is more than one half *)
  assert (Hhalf : (1 # 2) < (inject_Z c - q) * A).
  { assert (EA : (1 # 9007199254740992) * A == (1 # 2) * JsNum.pow2 (- m)).
    { subst A e. change (1 # 9007199254740992) with (JsNum.pow2 (-53)).
      change (1 # 2) with (JsNum.pow2 (-1)). rewrite <- !pow2_add.
      replace (-53 + - (m - 52))%Z with (-1 + - m)%Z by lia. reflexivity. }
    pose proof (pow2_pos (- m)) as Hm'. pose proof (pow2_opp m) as Hmm.
    assert (H2 : 1 < inject_Z c * JsNum.pow2 (- m)).
    { rewrite <- Hmm. rewrite (Qmult_comm (JsNum.pow2 (- m))).
      apply Qmult_lt_compat_r; assumption. }
    assert (H3 : inject_Z c * ((1 # 9007199254740992) * A)
                 <= (inject_Z c - q) * A).
    { rewrite Qmult_assoc. apply Qmult_le_compat_r; [exact Hgap|lra]. }
    rewrite EA in H3. lra. }
  assert (Hround : (JsNum.round_half_even (q * A) <= c * 2 ^ (- e) - 1)%Z).
  { apply round_half_even_below. rewrite HCz. lra. }
  assert (Hnonneg : (0 <= JsNum.round_half_even (q * A))%Z).
  { apply round_half_even_nonneg. apply Qmult_le_0_compat; lra. }
  set (M := JsNum.round_half_even (q * A)) in *.
  split.
  - apply Qmult_le_0_compat; [|lra]. change 0 with (inject_Z 0).
    by rewrite <- Zle_Qle.
  - apply Qle_lt_trans with ((inject_Z c * A - 1) * B).
    + apply Qmult_le_compat_r; [|lra].
      assert (HMq : inject_Z M + 1 <= inject_Z c * A).
      { rewrite <- HCz. change 1 with (inject_Z 1).
        rewrite <- inject_Z_plus, <- Zle_Qle. lia. }
      lra.
    + assert (E : (inject_Z c * A - 1) * B == inject_Z c * (A * B) - B) by ring.
      rewrite E, HAB. lra.
Qed.

End Movement.

(** C3. For a condition in [[1,100]] and a value [random] of
    [Math.random()] (a Number in [[0,1)]), [run(raceLength)] on a horse that
    is not finished succeeds with
    [movement = floor(random * condition) + 1], the product taken as
    JavaScript takes it; that movement lies in [[1, condition]], and it is
    the value returned, whether or not the position is clamped. *)
Theorem run_movement_bound :
  forall (random : Q) (raceLength : Z) (h : RunningHorse.t),
    1 <= RunningHorse.condition h <= 100 ->
    JsNum.is_b64 random = true ->
    (0 <= random)%Q -> (random < 1)%Q ->
    RunningHorse.isFinished h = false ->
    let movement :=
      JsNum.floor (JsNum.mul random (inject_Z (RunningHorse.condition h))) + 1 in
    fst (RunningHorse.run random raceLength h) = Ok movement
    /\ 1 <= movement <= RunningHorse.condition h.
Proof.
  intros random raceLength h Hc Hb H0 H1 Hfin movement. split.
  - unfold RunningHorse.run. rewrite Hfin.
    by destruct (raceLength <=? _).
  - destruct (mul_random_below random (RunningHorse.condition h) Hb H0 H1 Hc)
      as [Hlo Hhi].
    subst movement. unfold JsNum.floor.
    set (p := JsNum.mul random (inject_Z (RunningHorse.condition h))) in *.
    pose proof (Qfloor_resp_le 0 p Hlo) as Hf0. change (Qfloor 0) with 0 in Hf0.
    pose proof (Qfloor_le p) as Hf.
    assert (Hlt : (inject_Z (Qfloor p) < inject_Z (RunningHorse.condition h))%Q).
    { eapply Qle_lt_trans; eassumption. }
    rewrite <- Zlt_Qlt in Hlt. lia.
Qed.

(** ** The properties at sample inputs *)

Lemma turn_event_order_witness :
  exists finished completed final,
    Race.domainEvents (snd (Race.turn half photoFinish)) =
      Race.domainEvents photoFinish ++ finished ++ [completed] ++ final
    /\ Forall (fun e => isHorseFinished e = true) finished
    /\ isTurnCompleted completed = true.
Proof.
  assert (E : Race.turn half photoFinish = (Ok tt, snd (Race.turn half photoFinish)))
    by (vm_compute; reflexivity).
  destruct (turn_event_order half photoFinish _ E)
    as (finished & completed & final & Ev & Hf & Hc & _).
  exists finished, completed, final. split; [exact Ev|]. split; [exact Hf|exact Hc].
Defined.

Lemma turn_finish_order_witness :
  exists newly : list nat,
    Race.results (snd (Race.turn half photoFinish)) =
      Race.results photoFinish ++ newly
    /\ StronglySorted lt newly.
Proof.
  assert (E : Race.turn half photoFinish = (Ok tt, snd (Race.turn half photoFinish)))
    by (vm_compute; reflexivity).
  destruct (turn_finish_order half photoFinish _ E)
    as (newly & finished & rest & Er & _ & Hs & _).
  exists newly. split; [exact Er|exact Hs].
Defined.

Lemma run_movement_bound_witness :
  let h := RunningHorse.mk (JsString.units "a") (sampleHorse 50) 0 false in
  fst (RunningHorse.run (JsNum.literal (1 # 2)) 1200 h) = Ok 26.
Proof.
  intros h.
  assert (Hc : 1 <= RunningHorse.condition h <= 100) by (vm_compute; split; discriminate).
  assert (Hb : JsNum.is_b64 (JsNum.literal (1 # 2)) = true) by (vm_compute; reflexivity).
  assert (H0 : (0 <= JsNum.literal (1 # 2))%Q) by (vm_compute; discriminate).
  assert (H1 : (JsNum.literal (1 # 2) < 1)%Q) by (vm_compute; reflexivity).
  exact (proj1 (run_movement_bound (JsNum.literal (1 # 2)) 1200 h Hc Hb H0 H1 eq_refl)).
Defined.

Lemma results_invariant_witness :
  let r0 := Race.mk (JsString.units "race")
              [RunningHorse.mk (sampleUUID 0) (sampleHorse 50) 0 false]
              (Distance.mk 1200) [] false 0 [] in
  let r := snd (Race.turn half (snd (Race.start r0))) in
  (length (Race.results r) <= length (Race.horses r))%nat
  /\ NoDup (Race.results r).
Proof.
  intros r0 r.
  assert (Hc : Race.create Some Some sampleUUID [sampleHorse 50] (Distance.mk 1200)
                 (Some (JsString.units "race")) = Some (Ok r0))
    by (vm_compute; reflexivity).
  pose proof (results_invariant Some Some r
                (reach_turn Some Some half _
                   (reach_start Some Some _
                      (reach_create Some Some _ _ _ _ _ Hc)))) as (Hlen & _ & Hnd & _).
  split; [exact Hlen|exact Hnd].
Defined.

Lemma one_horse_scenario_witness :
  exists r12,
    turnTimes (JsNum.literal (99 # 100)) 12
      (snd (Race.start
              (Race.mk (JsString.units "race")
                 [RunningHorse.mk (sampleUUID 0) (sampleHorse 100) 0 false]
                 (Distance.mk 1200) [] false 0 [])))
    = (replicate 12 (Ok tt), r12)
    /\ Race.turnCount r12 = 12
    /\ Race.results r12 = [0%nat].
Proof.
  assert (Hc : Race.create Some Some sampleUUID [sampleHorse 100] (Distance.mk 1200)
                 (Some (JsString.units "race"))
               = Some (Ok (Race.mk (JsString.units "race")
                             [RunningHorse.mk (sampleUUID 0) (sampleHorse 100) 0 false]
                             (Distance.mk 1200) [] false 0 [])))
    by (vm_compute; reflexivity).
  destruct (one_horse_scenario Some Some sampleUUID (sampleHorse 100)
              (Some (JsString.units "race")) _ eq_refl Hc)
    as (_ & h & r12 & E & _ & _ & _ & _ & Ht & Hr & _).
  exists r12. split; [exact E|]. split; [exact Ht|exact Hr].
Defined.

Lemma execute_guards_witness :
  StartRaceCommand.execute emptyProgram
  = Some (Err (RaceNotFoundError 0), emptyProgram).
Proof.
  exact (proj1 (proj2 (execute_guards emptyProgram)) eq_refl eq_refl).
Defined.
